(** * ocserv [tlslib.c]: record I/O, session cache teardown, key delegation,
    record overhead and the certificate verification gate.

  A shallow embedding of the functions of [src/tlslib.c].  The TLS engine
  (GnuTLS), the C library and the kernel are the environment: whatever they
  answer is an input of the model (a script of results, a record of
  answers), and whatever the code asks of them is recorded in a trace. *)

From Stdlib Require Import ZArith Lia.
From stdpp Require Import base list gmap strings.

Local Open Scope Z_scope.

(** ** C integer types *)

Module CInt.

Definition INT_MAX : Z := 2147483647.
Definition SSIZE_MAX : Z := 9223372036854775807.

(** Reduction to an unsigned type of [w] bits. *)
Definition to_unsigned (w : Z) (x : Z) : Z := x mod 2 ^ w.

(** Reduction to a signed two's complement type of [w] bits, as the
    compilers ocserv is built with convert out-of-range values. *)
Definition to_signed (w : Z) (x : Z) : Z :=
  let m := x mod 2 ^ w in
  if m <? 2 ^ (w - 1) then m else m - 2 ^ w.

Definition to_uint8 : Z -> Z := to_unsigned 8.
Definition to_uint16 : Z -> Z := to_unsigned 16.
Definition to_size_t : Z -> Z := to_unsigned 64.
Definition to_int : Z -> Z := to_signed 32.
Definition to_ssize_t : Z -> Z := to_signed 64.

End CInt.

(** ** Result codes of the TLS engine (values of [gnutls/gnutls.h]) *)

Module Gnutls.

Definition GNUTLS_E_AGAIN : Z := -28.
Definition GNUTLS_E_INTERRUPTED : Z := -52.
Definition GNUTLS_E_CERTIFICATE_ERROR : Z := -43.
Definition GNUTLS_E_INTERNAL_ERROR : Z := -59.

End Gnutls.

(** ** Transport I/O adapter: [tls_send], [tls_send_nb], [tls_printf] *)

Module TransportIO.
Import CInt Gnutls.

(** What a call of the function has come to: it returned a value, or the
    script of engine answers ran out while its loop was still asking. *)
Inductive outcome : Type :=
| Returned (v : Z)
| Retrying.

(** One call of [gnutls_record_send (session, p, data_size)]: the offset of
    [p] from the start of the payload and the size that was passed. *)
Record send_call : Type := SendCall { sc_offset : Z; sc_size : Z }.

(** [ret < 0 && (ret != GNUTLS_E_AGAIN && ret != GNUTLS_E_INTERRUPTED)] *)
Definition send_fatal (ret : Z) : bool :=
  (ret <? 0) && (negb (ret =? GNUTLS_E_AGAIN) && negb (ret =? GNUTLS_E_INTERRUPTED)).

(** [ret < 0 && ret != GNUTLS_E_INTERRUPTED] *)
Definition send_nb_stop (ret : Z) : bool :=
  (ret <? 0) && negb (ret =? GNUTLS_E_INTERRUPTED).

(** The [while (left > 0)] loop of [tls_send].  [engine] lists the values
    [gnutls_record_send] answers, call after call; [left] and [p] are the
    loop's variables.  The engine is always handed [data_size], not
    [left].  The engine accepts no more than it is handed, so that
    [left - ret] is within [int] and is written without reduction. *)
Fixpoint tls_send_loop (engine : list Z) (data_size left p : Z)
  : outcome * list send_call :=
  if left >? 0 then
    match engine with
    | [] => (Retrying, [])
    | ret :: engine' =>
        let call := SendCall p data_size in
        if send_fatal ret then (Returned ret, [call])
        else
          let '(o, calls) :=
            if ret >? 0
            then tls_send_loop engine' data_size (left - ret) (p + ret)
            else tls_send_loop engine' data_size left p in
          (o, call :: calls)
    end
  else (Returned (to_ssize_t data_size), []).

(** [ssize_t tls_send (session, data, data_size)], with [int left = data_size]. *)
Definition tls_send (engine : list Z) (data_size : Z) : outcome * list send_call :=
  tls_send_loop engine data_size (to_int data_size) 0.

(** The loop of [tls_send_nb]. *)
Fixpoint tls_send_nb_loop (engine : list Z) (data_size left p : Z)
  : outcome * list send_call :=
  if left >? 0 then
    match engine with
    | [] => (Retrying, [])
    | ret :: engine' =>
        let call := SendCall p data_size in
        if send_nb_stop ret then
          if ret =? GNUTLS_E_AGAIN
          then (Returned (to_ssize_t data_size), [call])
          else (Returned ret, [call])
        else
          let '(o, calls) :=
            if ret >? 0
            then tls_send_nb_loop engine' data_size (left - ret) (p + ret)
            else tls_send_nb_loop engine' data_size left p in
          (o, call :: calls)
    end
  else (Returned (to_ssize_t data_size), []).

Definition tls_send_nb (engine : list Z) (data_size : Z) : outcome * list send_call :=
  tls_send_nb_loop engine data_size (to_int data_size) 0.

(** [vsnprintf (buf, size, fmt, args)] of the C library.  [rendered] is the
    complete expansion of the format with its arguments.  At most
    [size - 1] of its bytes are stored, followed by a NUL; the value
    returned is the length of the complete expansion, whether it fitted or
    not. *)
Definition vsnprintf (buf : list Z) (size : Z) (rendered : list Z) : list Z * Z :=
  let stored := take (Z.to_nat (size - 1)) rendered ++ [0] in
  let buf' := if size >? 0
              then stored ++ drop (length stored) buf
              else buf in
  (buf', Z.of_nat (length rendered)).

(** What [tls_printf] hands to [tls_send]: the scratch buffer and the byte
    count [s]. *)
Record printf_send : Type :=
  PrintfSend { ps_buf : list Z; ps_size : Z; ps_result : outcome * list send_call }.

(** [int tls_printf (session, fmt, ...)].  [stack] is what the 1024 bytes
    of [buf] hold on entry. *)
Definition tls_printf (engine : list Z) (stack : list Z) (rendered : list Z)
  : printf_send :=
  let buf := <[1023%nat := 0]> stack in
  let '(buf, n) := vsnprintf buf 1023 rendered in
  let s := to_size_t n in
  let '(o, calls) := tls_send engine s in
  let o := match o with Returned v => Returned (to_int v) | Retrying => Retrying end in
  PrintfSend buf s (o, calls).

(** The number of bytes of the expansion that [buf] holds after
    [vsnprintf (buf, 1023, ...)]. *)
Definition rendered_in_buffer (rendered : list Z) : Z :=
  Z.of_nat (length (take 1022 rendered)).

(** Sum of the byte counts the engine accepted. *)
Definition accepted (results : list Z) : Z :=
  foldr (fun r acc => (if r >? 0 then r else 0) + acc) 0 results.

(** The calls that go with a run of answers none of which ends the loop:
    each is handed [data_size], from where the accepted bytes end. *)
Fixpoint calls_of (results : list Z) (data_size p : Z) : list send_call :=
  match results with
  | [] => []
  | r :: results' =>
      SendCall p data_size :: calls_of results' data_size (if r >? 0 then p + r else p)
  end.

(** The two answers that ask to try again, and the answers that end the
    connection. *)
Definition retryable (r : Z) : Prop :=
  r = GNUTLS_E_AGAIN \/ r = GNUTLS_E_INTERRUPTED.

Definition fatal (r : Z) : Prop := r < 0 /\ ~ retryable r.

(** An answer after which [tls_send] goes on: a byte count or a retryable
    condition. *)
Definition goes_on (r : Z) : Prop := 0 <= r \/ retryable r.

End TransportIO.

(** ** Per-connection state and the certificate verification gate *)

Module Worker.
Import CInt Gnutls.

(** Modelled from the spec: the per-connection context ([worker_st] and the
    configuration it points to) is declared in headers that are not part of
    the sources at hand; the fields kept are the ones [tlslib.c] reads or
    writes: the negotiated session handle, the handle of the secondary
    (datagram) session, the authentication flag and the compatibility
    flag. *)
Record cfg_st : Type := Cfg { cisco_client_compat : Z }.

Record worker_st : Type := WorkerSt {
  session : Z;
  dtls_session : Z;
  cert_auth_ok : Z;
  config : cfg_st
}.

(** Priorities of [syslog.h]. *)
Definition LOG_ERR : Z := 3.
Definition LOG_INFO : Z := 6.

(** A line written with [syslog] or with [oclog]. *)
Inductive log_entry : Type :=
| Syslog (prio : Z) (msg : string)
| Oclog (prio : Z) (msg : string).

(** A question put to the engine. *)
Inductive engine_call : Type :=
| CallGetPeers (session : Z)
| CallVerifyPeers2 (session : Z)
| CallTypeGet (session : Z)
| CallStatusPrint (status type : Z).

(** The answers of the engine.  [gnutls_certificate_get_peers] answers the
    certificate list of the peer, [None] standing for [NULL];
    [gnutls_certificate_verify_peers2] answers its return value and the
    status word it stores; [gnutls_certificate_verification_status_print]
    answers its return value and the text it allocates. *)
Record engine : Type := Engine {
  gnutls_certificate_get_peers : Z -> option (list (list Z));
  gnutls_certificate_verify_peers2 : Z -> Z * Z;
  gnutls_certificate_type_get : Z -> Z;
  gnutls_certificate_verification_status_print : Z -> Z -> Z * string;
  gnutls_strerror : Z -> string
}.

(** [unsigned tls_has_session_cert (struct worker_st *ws)] *)
Definition tls_has_session_cert (eng : engine) (ws : worker_st)
  : Z * list engine_call :=
  if negb (cert_auth_ok ws =? 0) then (1, [])
  else if cisco_client_compat (config ws) =? 0 then (0, [])
  else
    let certs := gnutls_certificate_get_peers eng (session ws) in
    let calls := [CallGetPeers (session ws)] in
    match certs with
    | Some _ => (1, calls)
    | None => (0, calls)
    end.

Definition set_cert_auth_ok (v : Z) (ws : worker_st) : worker_st :=
  WorkerSt (session ws) (dtls_session ws) v (config ws).

(** What [verify_certificate_cb] leaves behind: its return value, the
    worker state, the lines logged and the questions put to the engine. *)
Record verify_result : Type := VerifyResult {
  vr_ret : Z;
  vr_ws : option worker_st;
  vr_log : list log_entry;
  vr_calls : list engine_call
}.

(** The label [fail:] of [verify_certificate_cb]. *)
Definition verify_fail (ws : worker_st) : Z :=
  if cisco_client_compat (config ws) =? 0 then GNUTLS_E_CERTIFICATE_ERROR else 0.

(** [static int verify_certificate_cb (gnutls_session_t session)].  [ptr] is
    what [gnutls_session_get_ptr (session)] answers, [None] for [NULL]. *)
Definition verify_certificate_cb (eng : engine) (sess : Z) (ptr : option worker_st)
  : verify_result :=
  match ptr with
  | None =>
      VerifyResult (-1) None
        [Syslog LOG_ERR "verify_certificate_cb:247: could not obtain worker state"] []
  | Some ws =>
      if sess =? dtls_session ws then VerifyResult 0 (Some ws) [] []
      else
        let ws := set_cert_auth_ok 0 ws in
        let '(ret, status) := gnutls_certificate_verify_peers2 eng sess in
        let calls := [CallVerifyPeers2 sess] in
        if ret <? 0 then
          VerifyResult (verify_fail ws) (Some ws)
            [Oclog LOG_ERR ("error verifying client certificate: " +:+ gnutls_strerror eng ret)]
            calls
        else if negb (status =? 0) then
          let type := gnutls_certificate_type_get eng sess in
          let '(ret, out) :=
            gnutls_certificate_verification_status_print eng status type in
          let calls := calls ++ [CallTypeGet sess; CallStatusPrint status type] in
          if ret <? 0 then VerifyResult (verify_fail ws) (Some ws) [] calls
          else
            VerifyResult (verify_fail ws) (Some ws)
              [Oclog LOG_INFO ("client certificate verification failed: " +:+ out)]
              calls
        else
          let ws := set_cert_auth_ok 1 ws in
          VerifyResult 0 (Some ws)
            [Oclog LOG_INFO "client certificate verification succeeded"] calls
  end.

End Worker.

(** ** Session resumption cache: [tls_cache_deinit] *)

Module Cache.
Import CInt.

(** Modelled from the spec: [tls_cache_st] and [hash_db_st] are declared in
    [tlslib.h], which is not part of the sources at hand.  An entry has its
    session id and its serialized session data, each a byte array with a
    recorded length; the database owns the hash table and an entry counter.
    The table is the sequence of entry addresses [htable_first] and
    [htable_next] enumerate. *)
Record tls_cache_st : Type := TlsCache {
  session_id : list Z;
  session_id_size : Z;
  session_data : list Z;
  session_data_size : Z
}.

Record hash_db_st : Type := HashDb {
  ht : list nat;
  entries : Z
}.

(** What the function does to memory, in order.  [EvFree p e] is
    [talloc_free] of the entry at address [p], [e] being what the entry
    holds at that moment. *)
Inductive mem_event : Type :=
| EvMemset (p : nat) (n : Z)
| EvFree (p : nat) (e : tls_cache_st)
| EvHtClear
| EvFreeDb (db : hash_db_st).

(** Modelled from the spec: [safe_memset] is defined in a file that is not
    part of the sources at hand.  As its name and its use here say, it is a
    [memset] the compiler may not drop: the first [n] bytes of [s] become
    [c].  The list is the array alone: for a count beyond its length the C
    call writes past the array, which has no meaning in C and which the list
    cannot show; what is said below of the bytes is said of the bytes of the
    array. *)
Definition safe_memset (s : list Z) (c : Z) (n : Z) : list Z :=
  replicate (Nat.min (Z.to_nat n) (length s)) (to_uint8 c) ++ drop (Z.to_nat n) s.

(** The body of [if (cache->session_data_size > 0)]. *)
Definition scrub (e : tls_cache_st) : tls_cache_st :=
  TlsCache (session_id e) 0
    (safe_memset (session_data e) 0 (session_data_size e)) 0.

(** The [while (cache != NULL)] loop: [iter] is what remains to be
    enumerated, [heap] maps the addresses of the live entries to their
    contents.  Reading through the address of an entry that is not live has
    no meaning: the model stops with [None]. *)
Fixpoint deinit_loop (iter : list nat) (heap : gmap nat tls_cache_st)
  : option (gmap nat tls_cache_st * list mem_event) :=
  match iter with
  | [] => Some (heap, [])
  | cache :: iter' =>
      match heap !! cache with
      | None => None
      | Some e =>
          let '(e', evs) :=
            if session_data_size e >? 0
            then (scrub e, [EvMemset cache (session_data_size e)])
            else (e, []) in
          let heap := <[cache := e']> heap in
          let heap := delete cache heap in
          match deinit_loop iter' heap with
          | None => None
          | Some (heap, rest) => Some (heap, evs ++ EvFree cache e' :: rest)
          end
      end
  end.

(** [void tls_cache_deinit (hash_db_st *db)].  The heap is that of the
    entries, as the loop leaves it: [talloc_free (db)] is recorded as an
    event, and what it releases besides the database itself, the blocks
    allocated with [db] as their parent, is decided where they are allocated,
    outside this file, and is not followed here. *)
Definition tls_cache_deinit (heap : gmap nat tls_cache_st) (db : hash_db_st)
  : option (gmap nat tls_cache_st * list mem_event) :=
  match deinit_loop (ht db) heap with
  | None => None
  | Some (heap, evs) =>
      let db := HashDb [] (entries db) in
      let db := HashDb (ht db) 0 in
      Some (heap, evs ++ [EvHtClear; EvFreeDb db])
  end.

(** The events that concern an entry, as opposed to the table and the
    database. *)
Definition entry_event (ev : mem_event) : Prop :=
  match ev with EvMemset _ _ | EvFree _ _ => True | _ => False end.

End Cache.

(** ** Key delegation client: [key_cb_common_func] *)

Module KeyDelegation.
Import CInt Gnutls.

(** [struct key_cb_data]: the index of the key and the address of the
    custodian's socket. *)
Record key_cb_data : Type := KeyCbData {
  idx : Z;
  sa : string;
  sa_len : Z
}.

(** A block obtained from [gnutls_malloc]: its size and the bytes stored in
    it so far. *)
Record block : Type := Block { capacity : Z; stored : list Z }.

(** [gnutls_datum_t]: [data] is the address of a block, [None] for [NULL]. *)
Record gnutls_datum_t : Type := Datum { data : option nat; size : Z }.

(** The answers of the kernel and of the allocator during one round trip.
    A [recv] answer is the bytes the call delivers, [None] when it fails
    with -1; a call never delivers more than it asked for.  [big_endian]
    is the byte order of the host, in which the [uint16_t length] is
    read. *)
Record kernel : Type := Kernel {
  k_socket : Z;
  k_connect : Z;
  k_writev : Z;
  k_recv_length : option (list Z);
  k_malloc : bool;
  k_recv_body : option (list Z);
  big_endian : bool
}.

(** What the function asks of the kernel and of the allocator, in order.
    A [EvSyslog] keeps the fixed part of the message. *)
Inductive sys_event : Type :=
| EvSocket
| EvConnect (sd : Z) (path : string)
| EvWritev (sd : Z) (iov : list (list Z))
| EvRecv (sd : Z) (n : Z)
| EvMalloc (n : Z)
| EvGnutlsFree (p : option nat)
| EvClose (sd : Z)
| EvSyslog (msg : string).

(** [recv (sd, buf, n, 0)]: the return value and the bytes stored. *)
Definition recv (answer : option (list Z)) (n : Z) : Z * list Z :=
  match answer with
  | None => (-1, [])
  | Some bytes =>
      let got := take (Z.to_nat n) bytes in
      (Z.of_nat (length got), got)
  end.

(** The [uint16_t] two received bytes denote on the host. *)
Definition load_uint16 (big : bool) (bytes : list Z) : Z :=
  match bytes with
  | b0 :: b1 :: _ =>
      if big then to_uint8 b0 * 256 + to_uint8 b1
      else to_uint8 b0 + to_uint8 b1 * 256
  | _ => 0
  end.

(** [gnutls_free (p)]: releases the block at [p]; nothing for [NULL]. *)
Definition gnutls_free (p : option nat) (heap : gmap nat block) : gmap nat block :=
  match p with
  | None => heap
  | Some a => delete a heap
  end.

Record round_trip : Type := RoundTrip {
  rt_ret : Z;
  rt_output : gnutls_datum_t;
  rt_heap : gmap nat block;
  rt_trace : list sys_event
}.

(** The label [error:] of [key_cb_common_func]. *)
Definition key_cb_error (sd : Z) (output : gnutls_datum_t) (heap : gmap nat block)
    (trace : list sys_event) : round_trip :=
  RoundTrip GNUTLS_E_INTERNAL_ERROR output (gnutls_free (data output) heap)
    (trace ++ [EvClose sd; EvGnutlsFree (data output)]).

(** [static int key_cb_common_func (key, userdata, raw_data, output, type)].
    [raw_data] is the operand, [output] the datum of the caller as it is on
    entry, [heap] the blocks that are allocated on entry. *)
Definition key_cb_common_func (k : kernel) (heap : gmap nat block)
    (cdata : key_cb_data) (raw_data : list Z) (output : gnutls_datum_t) (type : Z)
  : round_trip :=
  let output := Datum None (size output) in
  let sd := k_socket k in
  let trace := [EvSocket] in
  if sd =? -1 then
    RoundTrip GNUTLS_E_INTERNAL_ERROR output heap
      (trace ++ [EvSyslog "error opening socket: %s"])
  else
    let ret := k_connect k in
    let trace := trace ++ [EvConnect sd (sa cdata)] in
    if ret =? -1 then
      key_cb_error sd output heap
        (trace ++ [EvSyslog "error connecting to sec-mod socket '%s': %s"])
    else
      let header := [to_uint8 (idx cdata); to_uint8 type] in
      let iov := [header; raw_data] in
      let ret := k_writev k in
      let trace := trace ++ [EvWritev sd iov] in
      if ret =? -1 then
        key_cb_error sd output heap
          (trace ++ [EvSyslog "error writing to sec-mod: %s"])
      else
        let '(ret, got) := recv (k_recv_length k) 2 in
        let trace := trace ++ [EvRecv sd 2] in
        if ret <? 2 then
          key_cb_error sd output heap
            (trace ++ [EvSyslog "error reading from sec-mod: %s"])
        else
          let length := load_uint16 (big_endian k) got in
          let output := Datum (data output) length in
          let p := if k_malloc k then Some (fresh (dom heap)) else None in
          let heap := match p with
                      | Some a => <[a := Block (size output) []]> heap
                      | None => heap
                      end in
          let output := Datum p (size output) in
          let trace := trace ++ [EvMalloc (size output)] in
          match p with
          | None =>
              key_cb_error sd output heap
                (trace ++ [EvSyslog "error allocating memory"])
          | Some a =>
              let '(ret, got) := recv (k_recv_body k) (size output) in
              let heap := <[a := Block (size output) got]> heap in
              let trace := trace ++ [EvRecv sd (size output)] in
              if ret <=? 0 then
                key_cb_error sd output heap
                  (trace ++ [EvSyslog "error reading from sec-mod: %s"])
              else
                let output := Datum (data output) ret in
                RoundTrip 0 output heap (trace ++ [EvClose sd])
          end.

(** [key_cb_sign_func]: the common function with the tag ['S']. *)
Definition key_cb_sign_func (k : kernel) (heap : gmap nat block)
    (userdata : key_cb_data) (raw_data : list Z) (signature : gnutls_datum_t)
  : round_trip :=
  key_cb_common_func k heap userdata raw_data signature 83.

(** [key_cb_decrypt_func]: the common function with the tag ['D']. *)
Definition key_cb_decrypt_func (k : kernel) (heap : gmap nat block)
    (userdata : key_cb_data) (ciphertext : list Z) (plaintext : gnutls_datum_t)
  : round_trip :=
  key_cb_common_func k heap userdata ciphertext plaintext 68.


(** The bytes of the result the engine is given: those of the block
    [output] points to, up to [size output]. *)
Definition returned_bytes (r : round_trip) : option (list Z) :=
  match data (rt_output r) with
  | None => None
  | Some a =>
      match rt_heap r !! a with
      | None => None
      | Some b => Some (take (Z.to_nat (size (rt_output r))) (stored b))
      end
  end.

(** The length field as the function reads it, when two bytes arrived. *)
Definition advertised_length (k : kernel) : Z :=
  load_uint16 (big_endian k) (recv (k_recv_length k) 2).2.

(** The failures the function tests for: [socket], [connect] or [writev]
    answering -1, fewer than 2 bytes for the length field, no memory, and a
    body read that fails or delivers no byte. *)
Definition step_fails (k : kernel) : Prop :=
  k_socket k = -1 \/ k_connect k = -1 \/ k_writev k = -1
  \/ (recv (k_recv_length k) 2).1 < 2
  \/ k_malloc k = false
  \/ (recv (k_recv_body k) (advertised_length k)).1 <= 0.

End KeyDelegation.

(** ** Overhead accountant: [tls_get_overhead] *)

Module Overhead.
Import CInt.

(** The enumerations of [gnutls/gnutls.h] the function switches on. *)
Inductive gnutls_protocol_t : Type :=
| GNUTLS_SSL3 | GNUTLS_TLS1_0 | GNUTLS_TLS1_1 | GNUTLS_TLS1_2
| GNUTLS_DTLS0_9 | GNUTLS_DTLS1_0 | GNUTLS_DTLS1_2
| GNUTLS_VERSION_UNKNOWN.

Inductive gnutls_cipher_algorithm_t : Type :=
| GNUTLS_CIPHER_UNKNOWN | GNUTLS_CIPHER_NULL
| GNUTLS_CIPHER_ARCFOUR_128 | GNUTLS_CIPHER_3DES_CBC
| GNUTLS_CIPHER_AES_128_CBC | GNUTLS_CIPHER_AES_256_CBC
| GNUTLS_CIPHER_ARCFOUR_40
| GNUTLS_CIPHER_CAMELLIA_128_CBC | GNUTLS_CIPHER_CAMELLIA_256_CBC
| GNUTLS_CIPHER_RC2_40_CBC | GNUTLS_CIPHER_DES_CBC
| GNUTLS_CIPHER_AES_192_CBC
| GNUTLS_CIPHER_AES_128_GCM | GNUTLS_CIPHER_AES_256_GCM
| GNUTLS_CIPHER_CAMELLIA_192_CBC
| GNUTLS_CIPHER_SALSA20_256 | GNUTLS_CIPHER_ESTREAM_SALSA20_256
| GNUTLS_CIPHER_CAMELLIA_128_GCM | GNUTLS_CIPHER_CAMELLIA_256_GCM.

Inductive gnutls_mac_algorithm_t : Type :=
| GNUTLS_MAC_UNKNOWN | GNUTLS_MAC_NULL
| GNUTLS_MAC_MD5 | GNUTLS_MAC_SHA1 | GNUTLS_MAC_RMD160 | GNUTLS_MAC_MD2
| GNUTLS_MAC_SHA256 | GNUTLS_MAC_SHA384 | GNUTLS_MAC_SHA512 | GNUTLS_MAC_SHA224
| GNUTLS_MAC_AEAD | GNUTLS_MAC_UMAC_96 | GNUTLS_MAC_UMAC_128.

(** The engine the file is compiled against: its version number, which
    selects the branch of the [#if], and the functions the code calls. *)
Record engine : Type := Engine {
  GNUTLS_VERSION_NUMBER : Z;
  gnutls_est_record_overhead_size :
    gnutls_protocol_t -> gnutls_cipher_algorithm_t -> gnutls_mac_algorithm_t -> Z;
  gnutls_cipher_get_block_size : gnutls_cipher_algorithm_t -> Z;
  gnutls_hmac_get_len : gnutls_mac_algorithm_t -> Z
}.

Definition to_unsigned_int : Z -> Z := to_unsigned 32.

(** The first [switch]: the record header. *)
Definition header_overhead (eng : engine) (version : gnutls_protocol_t) : Z :=
  match version with
  | GNUTLS_DTLS0_9 | GNUTLS_DTLS1_0 => 13
  | GNUTLS_DTLS1_2 => if 0x030200 <=? GNUTLS_VERSION_NUMBER eng then 13 else 5
  | _ => 5
  end.

(** The second [switch]: what is added for the cipher. *)
Definition cipher_overhead (block_size : Z) (cipher : gnutls_cipher_algorithm_t)
    (overhead : Z) : Z :=
  match cipher with
  | GNUTLS_CIPHER_3DES_CBC
  | GNUTLS_CIPHER_AES_128_CBC
  | GNUTLS_CIPHER_AES_256_CBC
  | GNUTLS_CIPHER_CAMELLIA_128_CBC
  | GNUTLS_CIPHER_CAMELLIA_256_CBC
  | GNUTLS_CIPHER_AES_192_CBC
  | GNUTLS_CIPHER_CAMELLIA_192_CBC =>
      let overhead := to_unsigned_int (overhead + block_size) in
      to_unsigned_int (overhead + block_size)
  | GNUTLS_CIPHER_AES_128_GCM
  | GNUTLS_CIPHER_AES_256_GCM =>
      let overhead := to_unsigned_int (overhead + 8) in
      to_unsigned_int (overhead + block_size)
  | _ => overhead
  end.

(** [size_t tls_get_overhead (version, cipher, mac)] *)
Definition tls_get_overhead (eng : engine) (version : gnutls_protocol_t)
    (cipher : gnutls_cipher_algorithm_t) (mac : gnutls_mac_algorithm_t) : Z :=
  if 0x030207 <=? GNUTLS_VERSION_NUMBER eng then
    to_size_t (gnutls_est_record_overhead_size eng version cipher mac)
  else
    let overhead := 0 in
    let block_size := to_unsigned_int (gnutls_cipher_get_block_size eng cipher) in
    let overhead := to_unsigned_int (overhead + header_overhead eng version) in
    let overhead := cipher_overhead block_size cipher overhead in
    let t := to_unsigned_int (gnutls_hmac_get_len eng mac) in
    let overhead := if t >? 0 then to_unsigned_int (overhead + t) else overhead in
    overhead.

(** The ciphers the second [switch] names. *)
Definition cipher_listed (cipher : gnutls_cipher_algorithm_t) : bool :=
  match cipher with
  | GNUTLS_CIPHER_3DES_CBC
  | GNUTLS_CIPHER_AES_128_CBC
  | GNUTLS_CIPHER_AES_256_CBC
  | GNUTLS_CIPHER_CAMELLIA_128_CBC
  | GNUTLS_CIPHER_CAMELLIA_256_CBC
  | GNUTLS_CIPHER_AES_192_CBC
  | GNUTLS_CIPHER_CAMELLIA_192_CBC
  | GNUTLS_CIPHER_AES_128_GCM
  | GNUTLS_CIPHER_AES_256_GCM => true
  | _ => false
  end.

Definition cipher_listed_cbc (cipher : gnutls_cipher_algorithm_t) : bool :=
  match cipher with
  | GNUTLS_CIPHER_3DES_CBC
  | GNUTLS_CIPHER_AES_128_CBC
  | GNUTLS_CIPHER_AES_256_CBC
  | GNUTLS_CIPHER_CAMELLIA_128_CBC
  | GNUTLS_CIPHER_CAMELLIA_256_CBC
  | GNUTLS_CIPHER_AES_192_CBC
  | GNUTLS_CIPHER_CAMELLIA_192_CBC => true
  | _ => false
  end.

Definition cipher_listed_gcm (cipher : gnutls_cipher_algorithm_t) : bool :=
  match cipher with
  | GNUTLS_CIPHER_AES_128_GCM | GNUTLS_CIPHER_AES_256_GCM => true
  | _ => false
  end.

(** The versions the first [switch] names, for the engine at hand. *)
Definition version_listed (eng : engine) (version : gnutls_protocol_t) : bool :=
  match version with
  | GNUTLS_DTLS0_9 | GNUTLS_DTLS1_0 => true
  | GNUTLS_DTLS1_2 => 0x030200 <=? GNUTLS_VERSION_NUMBER eng
  | _ => false
  end.

(** Transport of a protocol version, when the version is a known one. *)
Inductive transport : Type := StreamTransport | DatagramTransport.

Definition transport_of (version : gnutls_protocol_t) : option transport :=
  match version with
  | GNUTLS_SSL3 | GNUTLS_TLS1_0 | GNUTLS_TLS1_1 | GNUTLS_TLS1_2 => Some StreamTransport
  | GNUTLS_DTLS0_9 | GNUTLS_DTLS1_0 | GNUTLS_DTLS1_2 => Some DatagramTransport
  | GNUTLS_VERSION_UNKNOWN => None
  end.

(** How a cipher protects a record: a stream cipher (or none) adds nothing
    of its own, a block cipher has a block size, an AEAD cipher an explicit
    nonce and a tag. *)
Inductive cipher_mode : Type :=
| StreamMode
| BlockMode (block_size : Z)
| AeadMode (nonce tag : Z).

(** The modes of the ciphers of the engine (GnuTLS's table of ciphers). *)
Definition cipher_mode_of (cipher : gnutls_cipher_algorithm_t) : cipher_mode :=
  match cipher with
  | GNUTLS_CIPHER_UNKNOWN | GNUTLS_CIPHER_NULL
  | GNUTLS_CIPHER_ARCFOUR_128 | GNUTLS_CIPHER_ARCFOUR_40
  | GNUTLS_CIPHER_SALSA20_256 | GNUTLS_CIPHER_ESTREAM_SALSA20_256 => StreamMode
  | GNUTLS_CIPHER_3DES_CBC | GNUTLS_CIPHER_RC2_40_CBC | GNUTLS_CIPHER_DES_CBC =>
      BlockMode 8
  | GNUTLS_CIPHER_AES_128_CBC | GNUTLS_CIPHER_AES_256_CBC | GNUTLS_CIPHER_AES_192_CBC
  | GNUTLS_CIPHER_CAMELLIA_128_CBC | GNUTLS_CIPHER_CAMELLIA_256_CBC
  | GNUTLS_CIPHER_CAMELLIA_192_CBC => BlockMode 16
  | GNUTLS_CIPHER_AES_128_GCM | GNUTLS_CIPHER_AES_256_GCM
  | GNUTLS_CIPHER_CAMELLIA_128_GCM | GNUTLS_CIPHER_CAMELLIA_256_GCM => AeadMode 8 16
  end.

(** The overhead the result is compared with.  This definition follows the
    words of the specification, not the code, which has nothing of the kind:
    the header of the transport, 5 bytes on a stream and 13 on datagrams;
    for a block cipher one block of padding, one block of explicit IV and
    the output length of the MAC; for an AEAD cipher the explicit nonce and
    the tag, and no MAC; otherwise the output length of the MAC. *)
Definition true_overhead (tr : transport) (mode : cipher_mode) (mac_len : Z) : Z :=
  (match tr with StreamTransport => 5 | DatagramTransport => 13 end)
  + match mode with
    | StreamMode => mac_len
    | BlockMode b => b + b + mac_len
    | AeadMode nonce tag => nonce + tag
    end.

(** An engine before 3.2.7, with the block sizes and MAC lengths of GnuTLS
    for the algorithms used in the examples below. *)
Definition gnutls_3_2_0 : engine :=
  Engine 0x030200
    (fun _ _ _ => 0)
    (fun cipher =>
       match cipher_mode_of cipher with
       | StreamMode => 1
       | BlockMode b => b
       | AeadMode _ _ => 16
       end)
    (fun mac =>
       match mac with
       | GNUTLS_MAC_MD5 => 16
       | GNUTLS_MAC_SHA1 => 20
       | GNUTLS_MAC_SHA256 => 32
       | GNUTLS_MAC_SHA384 => 48
       | _ => 0
       end).

End Overhead.

(** ** Transport I/O adapter: [tls_recv], [tls_send_file] *)

Module TransportFile.
Import CInt Gnutls TransportIO.

Definition GNUTLS_E_FILE_ERROR : Z := -64.

(** [ssize_t tls_recv (session, data, data_size)]: the [do ... while] loop
    over the answers of [gnutls_record_recv], with the number of calls
    made. *)
Fixpoint tls_recv (engine : list Z) : outcome * nat :=
  match engine with
  | [] => (Retrying, O)
  | ret :: engine' =>
      if (ret <? 0) && ((ret =? GNUTLS_E_INTERRUPTED) || (ret =? GNUTLS_E_AGAIN))
      then let '(o, n) := tls_recv engine' in (o, S n)
      else (Returned ret, 1%nat)
  end.

(** What a call of [tls_send_file] has come to: it returned, it is still
    inside a [tls_send] whose answers ran out, or [GNUTLS_FATAL_ERR] ended
    the process at the value [ret]. *)
Inductive file_outcome : Type :=
| FileReturned (v : Z)
| FileRetrying
| FileExited (ret : Z).

(** The [while ((len = fread (buf, 1, sizeof (buf), fp)) > 0)] loop of
    [tls_send_file].  [rest] is what remains to be read of the file, each
    [fread] delivering its next 512 bytes at most.  The macro
    [GNUTLS_FATAL_ERR] is defined in a header that is not part of the
    sources at hand: [fatal_err ret] tells whether it ends the process at
    [ret].  Each pass reads at least one byte, so that [fuel], one more
    than the length of the file, is never used up. *)
Fixpoint tls_send_file_loop (fuel : nat) (fatal_err : Z -> bool)
    (engine rest : list Z) (total : Z) : file_outcome * list send_call :=
  match fuel with
  | O => (FileRetrying, [])
  | S fuel' =>
      let buf := take 512 rest in
      let len := Z.of_nat (length buf) in
      if len >? 0 then
        let '(o, calls) := tls_send engine len in
        match o with
        | Retrying => (FileRetrying, calls)
        | Returned v =>
            let ret := to_int v in
            if fatal_err ret then (FileExited ret, calls)
            else
              let '(o', calls') :=
                tls_send_file_loop fuel' fatal_err (drop (length calls) engine)
                  (drop 512 rest) (total + ret) in
              (o', calls ++ calls')
        end
      else (FileReturned total, [])
  end.

(** [ssize_t tls_send_file (session, file)].  [file] is the content of the
    file, [None] when [fopen] fails. *)
Definition tls_send_file (fatal_err : Z -> bool) (engine : list Z)
    (file : option (list Z)) : file_outcome * list send_call :=
  match file with
  | None => (FileReturned GNUTLS_E_FILE_ERROR, [])
  | Some bytes => tls_send_file_loop (S (length bytes)) fatal_err engine bytes 0
  end.

(** The sizes of the reads of a file of [n] bytes: 512 bytes each, but for
    the last. *)
Fixpoint chunk_sizes (fuel n : nat) : list Z :=
  match fuel with
  | O => []
  | S fuel' =>
      if (n =? 0)%nat then []
      else Z.of_nat (Nat.min 512 n) :: chunk_sizes fuel' (n - 512)
  end.

End TransportFile.

(** ** Reading the trace of [tls_cache_deinit] *)

Module CacheTrace.
Import Cache.

(** The addresses released, in the order of their release. *)
Definition released (evs : list mem_event) : list nat :=
  omap (fun ev => match ev with EvFree p _ => Some p | _ => None end) evs.

(** What the function does with the entry [e] before it releases it. *)
Definition at_release (e : tls_cache_st) : tls_cache_st :=
  if session_data_size e >? 0 then scrub e else e.

End CacheTrace.

(** ** Reading the trace of a delegation round trip *)

Module KeyTrace.
Import KeyDelegation.

(** The descriptors closed, in order. *)
Definition closes (trace : list sys_event) : list Z :=
  omap (fun ev => match ev with EvClose sd => Some sd | _ => None end) trace.

(** The descriptors used by [connect], [writev] and [recv], in order. *)
Definition uses (trace : list sys_event) : list Z :=
  omap (fun ev =>
          match ev with
          | EvConnect sd _ | EvWritev sd _ | EvRecv sd _ => Some sd
          | _ => None
          end) trace.

(** What comes after the first [close] in a trace. *)
Fixpoint after_close (trace : list sys_event) : list sys_event :=
  match trace with
  | [] => []
  | EvClose _ :: rest => rest
  | _ :: rest => after_close rest
  end.

End KeyTrace.

(** ** Loading of the credentials: [certificate_check], [set_dh_params],
    [load_cert_files], [tls_reload_crl], [tls_load_certs] *)

Module Startup.
Import CInt KeyDelegation.

(** Values of [gnutls/gnutls.h] and of [syslog.h]. *)
Definition GNUTLS_PK_RSA : Z := 1.
Definition GNUTLS_KEY_KEY_ENCIPHERMENT : Z := 32.
Definition GNUTLS_CERT_IGNORE : Z := 0.
Definition GNUTLS_E_BASE64_DECODING_ERROR : Z := -34.
Definition GNUTLS_E_PARSING_ERROR : Z := -302.
Definition LOG_ERR : Z := 3.
Definition LOG_WARNING : Z := 4.
Definition LOG_INFO : Z := 6.

(** Modelled from the spec: the configuration and the server state are
    declared in headers that are not part of the sources at hand; the
    fields kept are the ones these functions read.  A file name that is
    [NULL] is [None]; [cert_size] and [key_size] are the two counters the
    code tests, [cert] the array of certificate file names. *)
Record cfg_st : Type := Cfg {
  cert : list string;
  cert_size : Z;
  key_size : Z;
  dh_params_file : option string;
  ca : option string;
  crl : option string;
  cert_req : Z;
  priorities : string;
  ocsp_response : option string;
  debug : Z
}.

Record main_server_st : Type := MainServer {
  config : cfg_st;
  socket_file : string
}.

(** [tls_st], as far as these functions read it: whether [xcred] is set
    on entry. *)
Record tls_st : Type := Tls { xcred : bool }.

(** What the functions ask of the engine and write to the log, in order.
    [EvCall fn arg] is a call of the engine function [fn], with the file
    name or string it is given when it is given one; [EvImportKey] is the
    call of [gnutls_privkey_import_ext2], with the user data that goes with
    the key; [EvLog] keeps the fixed part of a message of [mslog], without
    its final newline when it has one. *)
Inductive startup_event : Type :=
| EvCall (fn : string) (arg : string)
| EvImportKey (cdata : key_cb_data)
| EvLog (prio : Z) (msg : string).

(** The answers of the engine and of the allocators.  The answers of the
    calls made once per key are given per index of the key.
    [fatal_err ret] tells whether the macro [GNUTLS_FATAL_ERR], which is
    defined in a header that is not part of the sources at hand, ends the
    process at [ret], and [fatal_code] is the exit status it ends it with;
    [DEBUG_TLS] is a constant of the same headers. *)
Record engine : Type := Engine {
  gnutls_url_is_supported : string -> Z;
  gnutls_load_file : string -> Z;
  gnutls_x509_crt_init : Z;
  gnutls_x509_crt_import : Z;
  gnutls_x509_crt_get_pk_algorithm : Z;
  gnutls_x509_crt_get_key_usage : Z * Z;
  gnutls_dh_params_init : Z;
  gnutls_dh_params_import_pkcs3 : Z;
  gnutls_malloc_ok : nat -> bool;
  gnutls_pcert_list_import_x509_raw : nat -> Z;
  gnutls_privkey_init : nat -> Z;
  talloc_ok : nat -> bool;
  gnutls_privkey_import_ext2 : nat -> Z;
  gnutls_certificate_set_key : nat -> Z;
  gnutls_certificate_allocate_credentials : Z;
  gnutls_certificate_set_x509_trust_file : string -> Z;
  gnutls_certificate_set_x509_crl_file : string -> Z;
  gnutls_priority_init : string -> Z;
  gnutls_certificate_set_ocsp_status_request_file : string -> Z;
  fatal_err : Z -> bool;
  fatal_code : Z;
  DEBUG_TLS : Z
}.

(** How a function ends: it returns a value, the process exits, or the
    code reads beyond the array of certificate names. *)
Inductive step (A : Type) : Type :=
| Done (a : A)
| Exit (code : Z)
| Undefined.
Arguments Done {A} a.
Arguments Exit {A} code.
Arguments Undefined {A}.

(** A computation: how it ends and the events it leaves. *)
Definition proc (A : Type) : Type := (step A * list startup_event)%type.

Definition ret {A : Type} (a : A) : proc A := (Done a, []).

Definition bind {A B : Type} (c : proc A) (k : A -> proc B) : proc B :=
  match c with
  | (Done a, t) => let '(r, t') := k a in (r, t ++ t')
  | (Exit code, t) => (Exit code, t)
  | (Undefined, t) => (Undefined, t)
  end.

Definition emit (ev : startup_event) : proc unit := (Done tt, [ev]).
Definition call (fn arg : string) : proc unit := emit (EvCall fn arg).
Definition mslog (prio : Z) (msg : string) : proc unit := emit (EvLog prio msg).
Definition exit {A : Type} (code : Z) : proc A := (Exit code, []).

Notation "x <- c ;; k" := (bind c (fun x => k))
  (at level 100, c at next level, right associativity).
Notation "c ;; k" := (bind c (fun _ => k))
  (at level 100, right associativity).

(** The two warnings of [certificate_check]. *)
Definition msg_key_usage : string :=
  "server certificate key usage prevents key encipherment; unable to support the RSA ciphersuites; if that is not intentional, regenerate the server certificate with the key usage flag 'key encipherment' set.".

Definition msg_no_dh_params : string :=
  "no DH-params file specified; server will be limited to ECDHE ciphersuites".

(** [GNUTLS_FATAL_ERR (ret)] *)
Definition GNUTLS_FATAL_ERR (eng : engine) (r : Z) : proc unit :=
  if fatal_err eng r then exit (fatal_code eng) else ret tt.

(** The label [cleanup:] of [certificate_check]; [crt] tells whether the
    certificate structure has been set up, which [gnutls_x509_crt_init] does
    exactly when it returns no error. *)
Definition certificate_check_cleanup (crt : bool) : proc unit :=
  (if crt then call "gnutls_x509_crt_deinit" "" else ret tt) ;;
  call "gnutls_free" "".

(** [static void certificate_check (main_server_st *s)] *)
Definition certificate_check (eng : engine) (s : main_server_st) : proc unit :=
  if cert_size (config s) >? 1 then ret tt
  else
    match cert (config s) !! 0%nat with
    | None => (Undefined, [])
    | Some cert0 =>
        call "gnutls_url_is_supported" cert0 ;;
        if gnutls_url_is_supported eng cert0 =? 0 then
          call "gnutls_load_file" cert0 ;;
          if gnutls_load_file eng cert0 <? 0 then ret tt
          else
            call "gnutls_x509_crt_init" "" ;;
            GNUTLS_FATAL_ERR eng (gnutls_x509_crt_init eng) ;;
            let crt := 0 <=? gnutls_x509_crt_init eng in
            call "gnutls_x509_crt_import" "" ;;
            GNUTLS_FATAL_ERR eng (gnutls_x509_crt_import eng) ;;
            call "gnutls_x509_crt_get_pk_algorithm" "" ;;
            if negb (gnutls_x509_crt_get_pk_algorithm eng =? GNUTLS_PK_RSA)
            then certificate_check_cleanup crt
            else
              call "gnutls_x509_crt_get_key_usage" "" ;;
              let '(r, usage) := gnutls_x509_crt_get_key_usage eng in
              (if (r >=? 0) && (Z.land usage GNUTLS_KEY_KEY_ENCIPHERMENT =? 0) then
                 mslog LOG_WARNING msg_key_usage ;;
                 match dh_params_file (config s) with
                 | Some _ => mslog LOG_WARNING msg_no_dh_params
                 | None => ret tt
                 end
               else ret tt) ;;
              certificate_check_cleanup crt
        else certificate_check_cleanup false
    end.

(** [static void set_dh_params (main_server_st *s, tls_st *creds)] *)
Definition set_dh_params (eng : engine) (s : main_server_st) : proc unit :=
  match dh_params_file (config s) with
  | Some file =>
      call "gnutls_dh_params_init" "" ;;
      GNUTLS_FATAL_ERR eng (gnutls_dh_params_init eng) ;;
      call "gnutls_load_file" file ;;
      GNUTLS_FATAL_ERR eng (gnutls_load_file eng file) ;;
      call "gnutls_dh_params_import_pkcs3" "" ;;
      GNUTLS_FATAL_ERR eng (gnutls_dh_params_import_pkcs3 eng) ;;
      call "gnutls_free" "" ;;
      call "gnutls_certificate_set_dh_params" ""
  | None => ret tt
  end.

(** What [snprintf (sun_path, sizeof (sun_path), "%s", socket_file)] leaves
    in the 108 bytes of [sun_path], and [SUN_LEN] of the address. *)
Definition sun_path (socket_file : string) : string :=
  String.substring 0 107 socket_file.

Definition SUN_LEN (path : string) : Z := 2 + Z.of_nat (String.length path).

(** The user data [load_cert_files] attaches to the key of index [i]. *)
Definition key_cb_data_of (s : main_server_st) (i : nat) : key_cb_data :=
  KeyCbData (to_unsigned 32 (Z.of_nat i)) (sun_path (socket_file s))
    (SUN_LEN (sun_path (socket_file s))).

(** The [for] loop of [load_cert_files]: [n] keys remain, [i] is the index
    of the next one. *)
Fixpoint load_cert_files_loop (eng : engine) (s : main_server_st) (n i : nat)
  : proc Z :=
  match n with
  | O => ret 0
  | S n' =>
      match cert (config s) !! i with
      | None => (Undefined, [])
      | Some certi =>
          call "gnutls_url_is_supported" certi ;;
          if negb (gnutls_url_is_supported eng certi =? 0) then
            mslog LOG_ERR "Loading a certificate from '%s' is unsupported" ;;
            ret (-1)
          else
            call "gnutls_load_file" certi ;;
            if gnutls_load_file eng certi <? 0 then
              mslog LOG_ERR "error loading file '%s'" ;; ret (-1)
            else
              call "gnutls_malloc" "" ;;
              if negb (gnutls_malloc_ok eng i) then
                mslog LOG_ERR "error allocating memory" ;; ret (-1)
              else
                call "gnutls_pcert_list_import_x509_raw" "" ;;
                GNUTLS_FATAL_ERR eng (gnutls_pcert_list_import_x509_raw eng i) ;;
                call "gnutls_free" "" ;;
                call "gnutls_privkey_init" "" ;;
                GNUTLS_FATAL_ERR eng (gnutls_privkey_init eng i) ;;
                call "talloc" "" ;;
                if negb (talloc_ok eng i) then
                  mslog LOG_ERR "error allocating memory" ;; ret (-1)
                else
                  call "gnutls_pubkey_get_pk_algorithm" "" ;;
                  emit (EvImportKey (key_cb_data_of s i)) ;;
                  GNUTLS_FATAL_ERR eng (gnutls_privkey_import_ext2 eng i) ;;
                  call "gnutls_certificate_set_key" "" ;;
                  GNUTLS_FATAL_ERR eng (gnutls_certificate_set_key eng i) ;;
                  load_cert_files_loop eng s n' (S i)
      end
  end.

(** [static int load_cert_files (main_server_st *s, tls_st *creds)] *)
Definition load_cert_files (eng : engine) (s : main_server_st) : proc Z :=
  load_cert_files_loop eng s (Z.to_nat (key_size (config s))) 0.

(** [void tls_reload_crl (main_server_st *s, tls_st *creds)] *)
Definition tls_reload_crl (eng : engine) (s : main_server_st) : proc unit :=
  match crl (config s) with
  | Some file =>
      if negb (cert_req (config s) =? GNUTLS_CERT_IGNORE) then
        call "gnutls_certificate_set_x509_crl_file" file ;;
        let r := gnutls_certificate_set_x509_crl_file eng file in
        if r <? 0 then
          (if r =? GNUTLS_E_BASE64_DECODING_ERROR then
             mslog LOG_ERR
               "empty or unreadable CRL file (%s); check documentation to generate an empty CRL"
           else mslog LOG_ERR "error reading the CRL (%s) file: %s") ;;
          exit 1
        else ret tt
      else ret tt
  | None => ret tt
  end.

(** [void tls_load_certs (main_server_st *s, tls_st *creds)] *)
Definition tls_load_certs (eng : engine) (s : main_server_st) (creds : tls_st)
  : proc unit :=
  (if debug (config s) >=? DEBUG_TLS eng then
     call "gnutls_global_set_log_function" "" ;;
     call "gnutls_global_set_log_level" "9"
   else ret tt) ;;
  (if xcred creds then call "gnutls_certificate_free_credentials" "" else ret tt) ;;
  call "gnutls_certificate_allocate_credentials" "" ;;
  GNUTLS_FATAL_ERR eng (gnutls_certificate_allocate_credentials eng) ;;
  set_dh_params eng s ;;
  if (key_size (config s) =? 0) || (cert_size (config s) =? 0) then
    mslog LOG_ERR "no certificate or key files were specified" ;; exit 1
  else
    certificate_check eng s ;;
    r <- load_cert_files eng s ;;
    if r <? 0 then
      mslog LOG_ERR "error loading the certificate or key file" ;; exit 1
    else
      (if negb (cert_req (config s) =? GNUTLS_CERT_IGNORE) then
         match ca (config s) with
         | Some file =>
             call "gnutls_certificate_set_x509_trust_file" file ;;
             if gnutls_certificate_set_x509_trust_file eng file <? 0 then
               mslog LOG_ERR "error setting the CA (%s) file" ;; exit 1
             else mslog LOG_INFO "processed %d CA certificate(s)"
         | None => ret tt
         end ;;
         tls_reload_crl eng s ;;
         call "gnutls_certificate_set_verify_function" "verify_certificate_cb"
       else ret tt) ;;
      call "gnutls_priority_init" (priorities (config s)) ;;
      let r := gnutls_priority_init eng (priorities (config s)) in
      (if r =? GNUTLS_E_PARSING_ERROR then
         mslog LOG_ERR "error in TLS priority string: %s"
       else ret tt) ;;
      GNUTLS_FATAL_ERR eng r ;;
      match ocsp_response (config s) with
      | Some file =>
          call "gnutls_certificate_set_ocsp_status_request_file" file ;;
          GNUTLS_FATAL_ERR eng
            (gnutls_certificate_set_ocsp_status_request_file eng file)
      | None => ret tt
      end.

(** An engine for the examples: every call succeeds, the certificate is an
    RSA one whose key usage lacks key encipherment, CRL files load with the
    answer [crl_answer], and the macro ends the process, with status 1, at
    the negative values. *)
Definition example_engine (crl_answer : Z) : engine :=
  Engine (fun _ => 0) (fun _ => 0) 0 0 GNUTLS_PK_RSA (0, 0) 0 0
    (fun _ => true) (fun _ => 0) (fun _ => 0) (fun _ => true) (fun _ => 0)
    (fun _ => 0) 0 (fun _ => 2) (fun _ => crl_answer) (fun _ => 0) (fun _ => 0)
    (fun r => r <? 0) 1 2.

(** A configuration for the examples, with [n] keys, the certificate
    request mode [req] and the DH parameters file [dh]. *)
Definition example_server (n : nat) (req : Z) (dh : option string) : main_server_st :=
  MainServer
    (Cfg (replicate n "server-cert.pem"%string) (Z.of_nat n) (Z.of_nat n) dh
       (Some "ca.pem"%string) (Some "crl.pem"%string) req "NORMAL" None 0)
    "/var/run/ocserv-socket".

(** The keys handed to the engine, in order. *)
Definition imported_keys (trace : list startup_event) : list key_cb_data :=
  omap (fun ev => match ev with EvImportKey c => Some c | _ => None end) trace.

(** The engine functions called, in order. *)
Definition called (trace : list startup_event) : list string :=
  omap (fun ev => match ev with EvCall fn _ => Some fn | _ => None end) trace.

(** The messages logged, in order. *)
Definition logged (trace : list startup_event) : list string :=
  omap (fun ev => match ev with EvLog _ msg => Some msg | _ => None end) trace.

End Startup.

(** * Properties *)

(** ** Conversions that do not change the value *)

Section CIntFacts.
Import CInt.

Lemma to_signed_id w x :
  0 < w -> - 2 ^ (w - 1) <= x < 2 ^ (w - 1) -> to_signed w x = x.
Proof.
  intros Hw Hx. unfold to_signed.
  assert (Hp : 2 ^ w = 2 * 2 ^ (w - 1)).
  { replace w with (Z.succ (w - 1)) at 1 by lia. apply Z.pow_succ_r. lia. }
  destruct (Z_lt_dec x 0) as [Hneg | Hpos].
  - replace (x mod 2 ^ w) with (x + 2 ^ w).
    + destruct (Z.ltb_spec (x + 2 ^ w) (2 ^ (w - 1))); lia.
    + apply Z.mod_unique with (q := -1); lia.
  - rewrite Z.mod_small by lia.
    destruct (Z.ltb_spec x (2 ^ (w - 1))); lia.
Qed.

Lemma to_int_id x : 0 <= x <= INT_MAX -> to_int x = x.
Proof.
  intros Hx. apply to_signed_id; [lia |].
  unfold INT_MAX in Hx. change (2 ^ (32 - 1)) with 2147483648. lia.
Qed.

Lemma to_ssize_t_id x : 0 <= x <= SSIZE_MAX -> to_ssize_t x = x.
Proof.
  intros Hx. apply to_signed_id; [lia |].
  unfold SSIZE_MAX in Hx. change (2 ^ (64 - 1)) with 9223372036854775808. lia.
Qed.

Lemma to_unsigned_id w x : 0 <= x < 2 ^ w -> to_unsigned w x = x.
Proof. intros Hx. unfold to_unsigned. apply Z.mod_small. exact Hx. Qed.

End CIntFacts.

(** ** The send loops *)

Section SendFacts.
Import CInt Gnutls TransportIO.

Lemma accepted_nonneg results : 0 <= accepted results.
Proof.
  induction results as [| r results IH]; simpl; [lia |].
  destruct (r >? 0) eqn:Hr; lia.
Qed.

Lemma accepted_app l1 l2 : accepted (l1 ++ l2) = accepted l1 + accepted l2.
Proof.
  induction l1 as [| r l1 IH]; simpl; [reflexivity |].
  rewrite IH. lia.
Qed.

Lemma send_fatal_spec r : send_fatal r = true <-> fatal r.
Proof.
  unfold send_fatal, fatal, retryable, GNUTLS_E_AGAIN, GNUTLS_E_INTERRUPTED.
  rewrite !andb_true_iff, !negb_true_iff, Z.ltb_lt, !Z.eqb_neq. lia.
Qed.

Lemma send_fatal_goes_on r : send_fatal r = false <-> goes_on r.
Proof.
  unfold goes_on, retryable.
  destruct (send_fatal r) eqn:Hf.
  - apply send_fatal_spec in Hf. unfold fatal, retryable in Hf.
    split; [discriminate | lia].
  - split; [intros _ | reflexivity].
    destruct (Z_lt_dec r 0) as [Hneg | Hpos]; [| lia].
    right. unfold send_fatal in Hf.
    apply Z.ltb_lt in Hneg. rewrite Hneg in Hf. simpl in Hf.
    apply andb_false_iff in Hf. rewrite !negb_false_iff, !Z.eqb_eq in Hf. exact Hf.
Qed.

Lemma calls_of_app l1 l2 ds p :
  calls_of (l1 ++ l2) ds p = calls_of l1 ds p ++ calls_of l2 ds (p + accepted l1).
Proof.
  revert p. induction l1 as [| r l1 IH]; intros p; simpl.
  - f_equal. lia.
  - rewrite IH. do 3 f_equal. destruct (r >? 0); lia.
Qed.

Lemma calls_of_length l ds p : length (calls_of l ds p) = length l.
Proof. revert p. induction l as [| r l IH]; intros p; simpl; [| rewrite IH]; reflexivity. Qed.

(** A run of answers that neither end the loop nor complete the payload is
    consumed call by call. *)
Lemma tls_send_loop_goes_on pre rest ds left p :
  Forall goes_on pre -> accepted pre < left ->
  tls_send_loop (pre ++ rest) ds left p =
  let '(o, calls) := tls_send_loop rest ds (left - accepted pre) (p + accepted pre) in
  (o, calls_of pre ds p ++ calls).
Proof.
  revert left p. induction pre as [| r pre IH]; intros left p Hgo Hacc.
  - simpl. rewrite Z.sub_0_r, Z.add_0_r. destruct (tls_send_loop rest ds left p). reflexivity.
  - apply Forall_cons in Hgo as [Hr Hgo]. simpl in Hacc.
    pose proof (accepted_nonneg pre) as Hnn.
    assert (Hleft : (left >? 0) = true).
    { apply Z.gtb_lt. destruct (r >? 0) eqn:E; [apply Z.gtb_lt in E |]; lia. }
    apply send_fatal_goes_on in Hr.
    cbn [app tls_send_loop calls_of accepted foldr]. rewrite Hleft, Hr.
    fold (accepted pre).
    destruct (r >? 0) eqn:E.
    + rewrite IH; [| assumption | lia].
      replace (left - r - accepted pre) with (left - (r + accepted pre)) by lia.
      replace (p + r + accepted pre) with (p + (r + accepted pre)) by lia.
      destruct (tls_send_loop rest ds _ _). reflexivity.
    + rewrite IH; [| assumption | lia].
      replace (left - (0 + accepted pre)) with (left - accepted pre) by lia.
      replace (p + (0 + accepted pre)) with (p + accepted pre) by lia.
      destruct (tls_send_loop rest ds _ _). reflexivity.
Qed.

(** When the loop returns a value that is not negative, that value is the
    payload size and the answers to the calls it made accepted at least
    [left] bytes. *)
Lemma tls_send_loop_done engine ds left p v calls :
  tls_send_loop engine ds left p = (Returned v, calls) -> 0 <= v ->
  v = to_ssize_t ds /\ left <= accepted (take (length calls) engine).
Proof.
  revert left p calls. induction engine as [| r engine IH]; intros left p calls Hrun Hv.
  - simpl in Hrun. destruct (left >? 0) eqn:Hl; [discriminate |].
    injection Hrun as <- <-. simpl. rewrite Z.gtb_ltb, Z.ltb_ge in Hl. auto.
  - cbn [tls_send_loop] in Hrun. destruct (left >? 0) eqn:Hl.
    + destruct (send_fatal r) eqn:Hf.
      * injection Hrun as <- _. apply send_fatal_spec in Hf. destruct Hf. lia.
      * destruct (r >? 0) eqn:E.
        -- destruct (tls_send_loop engine ds (left - r) (p + r)) as [o cs] eqn:Hrec.
           injection Hrun as -> <-. apply IH in Hrec as [Hv' Hrec]; [| assumption].
           split; [exact Hv' |]. simpl. rewrite E. lia.
        -- destruct (tls_send_loop engine ds left p) as [o cs] eqn:Hrec.
           injection Hrun as -> <-. apply IH in Hrec as [Hv' Hrec]; [| assumption].
           split; [exact Hv' |]. simpl. rewrite E. lia.
    + injection Hrun as <- <-. rewrite take_0. simpl.
      rewrite Z.gtb_ltb, Z.ltb_ge in Hl. auto.
Qed.

Lemma tls_send_loop_stop engine ds left p :
  left <= 0 -> tls_send_loop engine ds left p = (Returned (to_ssize_t ds), []).
Proof.
  intros Hl. assert (E : (left >? 0) = false) by (rewrite Z.gtb_ltb, Z.ltb_ge; exact Hl).
  destruct engine; cbn [tls_send_loop]; rewrite E; reflexivity.
Qed.

Lemma tls_send_loop_out_of_answers ds left p :
  0 < left -> tls_send_loop [] ds left p = (Retrying, []).
Proof.
  intros Hl. cbn [tls_send_loop].
  replace (left >? 0) with true by (symmetry; apply Z.gtb_lt; lia). reflexivity.
Qed.

Lemma tls_send_loop_fatal r post ds left p :
  0 < left -> fatal r ->
  tls_send_loop (r :: post) ds left p = (Returned r, [SendCall p ds]).
Proof.
  intros Hl Hf. apply send_fatal_spec in Hf. cbn [tls_send_loop].
  replace (left >? 0) with true by (symmetry; apply Z.gtb_lt; lia).
  rewrite Hf. reflexivity.
Qed.

Lemma tls_send_loop_last r post ds left p :
  0 < left -> 0 < r -> left <= r ->
  tls_send_loop (r :: post) ds left p = (Returned (to_ssize_t ds), [SendCall p ds]).
Proof.
  intros Hl Hr Hle. cbn [tls_send_loop].
  replace (left >? 0) with true by (symmetry; apply Z.gtb_lt; lia).
  replace (send_fatal r) with false
    by (symmetry; apply send_fatal_goes_on; left; lia).
  replace (r >? 0) with true by (symmetry; apply Z.gtb_lt; lia).
  rewrite tls_send_loop_stop by lia. reflexivity.
Qed.

(** C4, as amended: for a payload whose size the [int] counter of the loop
    holds (0 to [INT_MAX]), [tls_send] calls the engine again after every
    byte count and after every would-block or interrupted answer, as long as
    bytes are left; it returns the payload size once the answers have
    accepted all the bytes, and never before; a negative answer other than
    those two is returned as it is, with no call after it. *)
Theorem tls_send_within_int (data_size : Z) :
  0 <= data_size <= INT_MAX ->
  (forall engine, data_size = 0 -> tls_send engine data_size = (Returned 0, []))
  /\ (forall engine v calls,
        tls_send engine data_size = (Returned v, calls) -> 0 <= v ->
        v = data_size /\ data_size <= accepted (take (length calls) engine))
  /\ (forall pre,
        Forall goes_on pre -> accepted pre < data_size ->
        tls_send pre data_size = (Retrying, calls_of pre data_size 0))
  /\ (forall pre r post,
        Forall goes_on pre -> accepted pre < data_size ->
        0 < r -> data_size <= accepted pre + r ->
        tls_send (pre ++ r :: post) data_size
        = (Returned data_size, calls_of (pre ++ [r]) data_size 0))
  /\ (forall pre r post,
        Forall goes_on pre -> accepted pre < data_size -> fatal r ->
        tls_send (pre ++ r :: post) data_size
        = (Returned r, calls_of (pre ++ [r]) data_size 0)).
Proof.
  intros Hrange. unfold tls_send.
  assert (Hss : to_ssize_t data_size = data_size).
  { apply to_ssize_t_id. unfold INT_MAX, SSIZE_MAX in *. lia. }
  rewrite (to_int_id data_size Hrange).
  split; [| split; [| split; [| split]]].
  - intros engine ->. apply tls_send_loop_stop. lia.
  - intros engine v calls Hrun Hv.
    apply tls_send_loop_done in Hrun as [-> Hacc]; [| exact Hv]. auto.
  - intros pre Hgo Hacc.
    rewrite <- (app_nil_r pre) at 1.
    rewrite tls_send_loop_goes_on by assumption.
    rewrite tls_send_loop_out_of_answers by lia. rewrite app_nil_r. reflexivity.
  - intros pre r post Hgo Hacc Hr Hle.
    rewrite tls_send_loop_goes_on by assumption.
    rewrite tls_send_loop_last by lia.
    rewrite calls_of_app, Hss. reflexivity.
  - intros pre r post Hgo Hacc Hf.
    rewrite tls_send_loop_goes_on by assumption.
    rewrite tls_send_loop_fatal by (assumption || lia).
    rewrite calls_of_app. reflexivity.
Qed.

(** The amended statement at a 10-byte payload: the engine answers
    would-block, accepts 4 bytes, is interrupted, then accepts 6 bytes. *)
Lemma tls_send_within_int_witness :
  tls_send [GNUTLS_E_AGAIN; 4; GNUTLS_E_INTERRUPTED; 6; -10] 10
  = (Returned 10, [SendCall 0 10; SendCall 0 10; SendCall 4 10; SendCall 4 10]).
Proof.
  assert (Hrange : 0 <= 10 <= INT_MAX) by (unfold INT_MAX; lia).
  destruct (tls_send_within_int 10 Hrange) as (_ & _ & _ & Hdone & _).
  apply (Hdone [GNUTLS_E_AGAIN; 4; GNUTLS_E_INTERRUPTED] 6 [-10]).
  - repeat constructor; unfold goes_on, retryable; auto; lia.
  - vm_compute. reflexivity.
  - lia.
  - vm_compute. discriminate.
Defined.

(** C4, as stated, fails on a payload of 2^31 bytes: [left] is negative
    from the start, and the function reports the whole payload sent without
    one call of the engine. *)
Lemma tls_send_beyond_int :
  ~ (forall data_size engine v calls,
       0 <= data_size ->
       tls_send engine data_size = (Returned v, calls) -> 0 <= v ->
       v = data_size /\ data_size <= accepted (take (length calls) engine)).
Proof.
  intros Hclaim.
  destruct (Hclaim 2147483648 [] 2147483648 []) as [_ Hacc].
  - lia.
  - vm_compute. reflexivity.
  - lia.
  - vm_compute in Hacc. apply Hacc. reflexivity.
Qed.

(** *** [tls_send_nb] *)

Lemma send_nb_stop_not_again r :
  r <> GNUTLS_E_AGAIN -> send_nb_stop r = send_fatal r.
Proof.
  intros Hr. unfold send_nb_stop, send_fatal.
  apply Z.eqb_neq in Hr. rewrite Hr. reflexivity.
Qed.

Lemma send_nb_stop_again : send_nb_stop GNUTLS_E_AGAIN = true.
Proof. reflexivity. Qed.

(** Without a would-block answer the two loops are the same loop. *)
Lemma tls_send_nb_loop_no_again engine ds left p :
  Forall (fun r => r <> GNUTLS_E_AGAIN) engine ->
  tls_send_nb_loop engine ds left p = tls_send_loop engine ds left p.
Proof.
  revert left p. induction engine as [| r engine IH]; intros left p Hno.
  - reflexivity.
  - apply Forall_cons in Hno as [Hr Hno].
    cbn [tls_send_nb_loop tls_send_loop].
    rewrite (send_nb_stop_not_again r Hr).
    apply Z.eqb_neq in Hr. rewrite Hr.
    rewrite !IH by assumption. reflexivity.
Qed.

Lemma tls_send_nb_loop_goes_on pre rest ds left p :
  Forall goes_on pre -> Forall (fun r => r <> GNUTLS_E_AGAIN) pre ->
  accepted pre < left ->
  tls_send_nb_loop (pre ++ rest) ds left p =
  let '(o, calls) := tls_send_nb_loop rest ds (left - accepted pre) (p + accepted pre) in
  (o, calls_of pre ds p ++ calls).
Proof.
  revert left p. induction pre as [| r pre IH]; intros left p Hgo Hno Hacc.
  - simpl. rewrite Z.sub_0_r, Z.add_0_r.
    destruct (tls_send_nb_loop rest ds left p). reflexivity.
  - apply Forall_cons in Hgo as [Hr Hgo]. apply Forall_cons in Hno as [Hn Hno].
    simpl in Hacc. pose proof (accepted_nonneg pre) as Hnn.
    assert (Hleft : (left >? 0) = true).
    { apply Z.gtb_lt. destruct (r >? 0) eqn:E; [apply Z.gtb_lt in E |]; lia. }
    apply send_fatal_goes_on in Hr. rewrite <- (send_nb_stop_not_again r Hn) in Hr.
    cbn [app tls_send_nb_loop calls_of accepted foldr]. rewrite Hleft, Hr.
    fold (accepted pre).
    destruct (r >? 0) eqn:E.
    + rewrite IH; [| assumption | assumption | lia].
      replace (left - r - accepted pre) with (left - (r + accepted pre)) by lia.
      replace (p + r + accepted pre) with (p + (r + accepted pre)) by lia.
      destruct (tls_send_nb_loop rest ds _ _). reflexivity.
    + rewrite IH; [| assumption | assumption | lia].
      replace (left - (0 + accepted pre)) with (left - accepted pre) by lia.
      replace (p + (0 + accepted pre)) with (p + accepted pre) by lia.
      destruct (tls_send_nb_loop rest ds _ _). reflexivity.
Qed.

(** C9: [tls_send_nb] is [tls_send] as long as the engine does not answer
    would-block; at the first would-block answer met while bytes are left
    ([left > 0], so fewer bytes than the payload were accepted) it returns
    the payload size at once, with no call after that answer. *)
Theorem tls_send_nb_policy (data_size : Z) :
  (forall engine,
      Forall (fun r => r <> GNUTLS_E_AGAIN) engine ->
      tls_send_nb engine data_size = tls_send engine data_size)
  /\ (forall pre post,
        Forall goes_on pre -> Forall (fun r => r <> GNUTLS_E_AGAIN) pre ->
        accepted pre < to_int data_size ->
        tls_send_nb (pre ++ GNUTLS_E_AGAIN :: post) data_size
        = (Returned (to_ssize_t data_size),
           calls_of (pre ++ [GNUTLS_E_AGAIN]) data_size 0))
  /\ (0 <= data_size <= SSIZE_MAX -> to_ssize_t data_size = data_size).
Proof.
  split; [| split].
  - intros engine Hno. apply tls_send_nb_loop_no_again. exact Hno.
  - intros pre post Hgo Hno Hacc. unfold tls_send_nb.
    rewrite tls_send_nb_loop_goes_on by assumption.
    pose proof (accepted_nonneg pre) as Hnn.
    cbn [tls_send_nb_loop].
    replace (to_int data_size - accepted pre >? 0) with true
      by (symmetry; apply Z.gtb_lt; lia).
    rewrite send_nb_stop_again, Z.eqb_refl, calls_of_app. reflexivity.
  - apply to_ssize_t_id.
Qed.

(** C9 on a 10-byte payload: 4 bytes are accepted, the engine is
    interrupted, then answers would-block; 10 is returned. *)
Lemma tls_send_nb_policy_witness :
  tls_send_nb [4; GNUTLS_E_INTERRUPTED; GNUTLS_E_AGAIN; 6] 10
  = (Returned 10, [SendCall 0 10; SendCall 4 10; SendCall 4 10]).
Proof.
  destruct (tls_send_nb_policy 10) as (_ & Hagain & Hsize).
  rewrite <- (Hsize ltac:(unfold SSIZE_MAX; lia)) at 2.
  apply (Hagain [4; GNUTLS_E_INTERRUPTED] [6]).
  - repeat constructor; unfold goes_on, retryable; auto; lia.
  - repeat constructor; unfold GNUTLS_E_AGAIN, GNUTLS_E_INTERRUPTED; lia.
  - vm_compute. reflexivity.
Defined.

(** *** [tls_printf] *)

(** The byte count handed to [tls_send] is the length of the complete
    expansion, whatever the buffer holds of it. *)
Lemma tls_printf_size (engine stack rendered : list Z) :
  Z.of_nat (length rendered) < 2 ^ 64 ->
  ps_size (tls_printf engine stack rendered) = Z.of_nat (length rendered).
Proof.
  intros Hlen. unfold tls_printf, vsnprintf.
  destruct (tls_send engine _) as [o calls]. cbn [ps_size].
  apply to_unsigned_id. lia.
Qed.

(** An expansion of at most 1022 bytes is in the buffer as a whole. *)
Lemma rendered_in_buffer_short (rendered : list Z) :
  (length rendered <= 1022)%nat ->
  rendered_in_buffer rendered = Z.of_nat (length rendered).
Proof. intros Hlen. unfold rendered_in_buffer. rewrite take_ge by lia. reflexivity. Qed.

(** C3 at a format whose expansion has 2000 bytes: the scratch buffer has
    1024 bytes and holds 1022 bytes of the expansion, and [tls_send] is
    handed the buffer with the byte count 2000, which it passes to the
    engine. *)
Theorem tls_printf_overrun :
  let r := tls_printf [2000] (replicate 1024 7) (replicate 2000 65) in
  Z.of_nat (length (ps_buf r)) = 1024
  /\ rendered_in_buffer (replicate 2000 65) = 1022
  /\ ps_size r = 2000
  /\ ps_result r = (Returned 2000, [SendCall 0 2000]).
Proof. vm_compute. repeat split; reflexivity. Qed.

End SendFacts.

(** ** Certificate authentication of a session *)

Section WorkerFacts.
Import Gnutls Worker.
Variable eng : engine.

(** C10: [tls_has_session_cert] answers 1 when the authentication flag is
    set; otherwise 0, with no question to the engine, when the compatibility
    flag is off; otherwise it asks for the certificates of the peer and
    answers 1 exactly when there are any, whatever their verification. *)
Theorem tls_has_session_cert_cases (ws : worker_st) :
  (cert_auth_ok ws <> 0 -> tls_has_session_cert eng ws = (1, []))
  /\ (cert_auth_ok ws = 0 -> cisco_client_compat (config ws) = 0 ->
      tls_has_session_cert eng ws = (0, []))
  /\ (cert_auth_ok ws = 0 -> cisco_client_compat (config ws) <> 0 ->
      (tls_has_session_cert eng ws).2 = [CallGetPeers (session ws)]
      /\ ((tls_has_session_cert eng ws).1 = 1
          <-> is_Some (gnutls_certificate_get_peers eng (session ws)))
      /\ ((tls_has_session_cert eng ws).1 = 0
          <-> gnutls_certificate_get_peers eng (session ws) = None)).
Proof.
  unfold tls_has_session_cert. split; [| split].
  - intros Hok. apply Z.eqb_neq in Hok. rewrite Hok. reflexivity.
  - intros -> Hc. apply Z.eqb_eq in Hc. rewrite Hc. reflexivity.
  - intros -> Hc. apply Z.eqb_neq in Hc. rewrite Hc. simpl.
    destruct (gnutls_certificate_get_peers eng (session ws)) as [certs |]; simpl.
    + repeat split; try discriminate; eauto.
    + repeat split; try discriminate; auto. intros [certs Hs]. discriminate.
Qed.

(** C7, as amended: on the primary session, once the engine has produced a
    status:
    status 0 stores 1 in the authentication flag, returns 0 and logs the
    success; any other status leaves the worker state with the flag at 0 and
    returns the certificate error when the compatibility flag is off, 0 when
    it is on.  With the compatibility flag on, the reason the engine decoded
    from the status is the one line logged when the decoding succeeds, and
    nothing is logged when the decoding fails.  The other fields of the worker
    state are as they were. *)
Theorem verify_certificate_cb_gate (sess : Z) (ws : worker_st) (ret status : Z) :
  sess <> dtls_session ws ->
  gnutls_certificate_verify_peers2 eng sess = (ret, status) ->
  0 <= ret ->
  let r := verify_certificate_cb eng sess (Some ws) in
  (status = 0 ->
     vr_ret r = 0
     /\ vr_ws r = Some (WorkerSt (session ws) (dtls_session ws) 1 (config ws))
     /\ vr_log r = [Oclog LOG_INFO "client certificate verification succeeded"])
  /\ (status <> 0 -> cisco_client_compat (config ws) = 0 ->
      vr_ret r = GNUTLS_E_CERTIFICATE_ERROR
      /\ vr_ws r = Some (WorkerSt (session ws) (dtls_session ws) 0 (config ws)))
  /\ (status <> 0 -> cisco_client_compat (config ws) <> 0 ->
      vr_ret r = 0
      /\ vr_ws r = Some (WorkerSt (session ws) (dtls_session ws) 0 (config ws))
      /\ forall pret reason,
           gnutls_certificate_verification_status_print eng status
             (gnutls_certificate_type_get eng sess) = (pret, reason) ->
           (0 <= pret ->
            vr_log r
            = [Oclog LOG_INFO ("client certificate verification failed: " +:+ reason)])
           /\ (pret < 0 -> vr_log r = [])).
Proof.
  intros Hprimary Hverify Hret. unfold verify_certificate_cb, set_cert_auth_ok.
  apply Z.eqb_neq in Hprimary. rewrite Hprimary, Hverify.
  replace (ret <? 0) with false by (symmetry; apply Z.ltb_ge; exact Hret).
  cbv zeta. split; [| split].
  - intros ->. simpl. auto.
  - intros Hst Hc. apply Z.eqb_neq in Hst. rewrite Hst. simpl.
    destruct (gnutls_certificate_verification_status_print eng status _) as [pret reason].
    unfold verify_fail. simpl. apply Z.eqb_eq in Hc. rewrite Hc.
    destruct (pret <? 0); simpl; auto.
  - intros Hst Hc. apply Z.eqb_neq in Hst. rewrite Hst. simpl.
    destruct (gnutls_certificate_verification_status_print eng status _)
      as [pret reason] eqn:Hprint.
    unfold verify_fail. simpl. apply Z.eqb_neq in Hc. rewrite Hc.
    destruct (pret <? 0) eqn:Hp; simpl; (split; [reflexivity |]);
      (split; [reflexivity |]); intros pret' reason' [= <- <-].
    + apply Z.ltb_lt in Hp. split; [lia | reflexivity].
    + apply Z.ltb_ge in Hp. split; [reflexivity | lia].
Qed.

End WorkerFacts.

(** The gate on a session whose certificate has expired (status 0x402),
    compatibility on: the handshake goes on, unauthenticated, and the
    decoded reason is logged.  The gate on a session whose certificate is
    valid: the flag, 0 before, is 1 afterwards. *)
Lemma verify_certificate_cb_gate_witness :
  (let eng := Worker.Engine (fun _ => None) (fun _ => (0, 1026)) (fun _ => 1)
                (fun _ _ => (0, "The certificate chain uses expired certificate. "%string))
                (fun _ => ""%string) in
   let ws := Worker.WorkerSt 1 2 1 (Worker.Cfg 1) in
   let r := Worker.verify_certificate_cb eng 1 (Some ws) in
   Worker.vr_ret r = 0
   /\ Worker.vr_ws r = Some (Worker.WorkerSt 1 2 0 (Worker.Cfg 1))
   /\ Worker.vr_log r
      = [Worker.Oclog Worker.LOG_INFO
           "client certificate verification failed: The certificate chain uses expired certificate. "])
  /\ (let eng := Worker.Engine (fun _ => None) (fun _ => (0, 0)) (fun _ => 1)
                   (fun _ _ => (0, ""%string)) (fun _ => ""%string) in
      let ws := Worker.WorkerSt 1 2 0 (Worker.Cfg 0) in
      let r := Worker.verify_certificate_cb eng 1 (Some ws) in
      Worker.vr_ret r = 0
      /\ Worker.vr_ws r = Some (Worker.WorkerSt 1 2 1 (Worker.Cfg 0))).
Proof.
  split.
  - intros eng ws r.
    assert (Hprimary : 1 <> Worker.dtls_session ws) by (simpl; lia).
    assert (Hret : 0 <= 0) by lia.
    destruct (verify_certificate_cb_gate eng 1 ws 0 1026 Hprimary eq_refl Hret)
      as (_ & _ & Hon).
    destruct Hon as (H1 & H2 & H3); [lia | simpl; lia |].
    split; [exact H1 | split; [exact H2 |]].
    destruct (H3 0 "The certificate chain uses expired certificate. "%string eq_refl)
      as [Hlog _].
    apply Hlog. lia.
  - intros eng ws r.
    assert (Hprimary : 1 <> Worker.dtls_session ws) by (simpl; lia).
    assert (Hret : 0 <= 0) by lia.
    destruct (verify_certificate_cb_gate eng 1 ws 0 0 Hprimary eq_refl Hret)
      as (Hvalid & _).
    destruct (Hvalid eq_refl) as (H1 & H2 & _).
    split; [exact H1 | exact H2].
Defined.

(** C7, as stated, fails when the engine cannot decode the status: with the
    certificate expired (status 0x402), the compatibility flag on and
    [gnutls_certificate_verification_status_print] answering
    [GNUTLS_E_MEMORY_ERROR] (-25), the handshake goes on and no line is
    logged. *)
Lemma verify_certificate_cb_silent :
  ~ (forall eng sess ws ret status,
       sess <> Worker.dtls_session ws ->
       Worker.gnutls_certificate_verify_peers2 eng sess = (ret, status) ->
       0 <= ret -> status <> 0 ->
       Worker.cisco_client_compat (Worker.config ws) <> 0 ->
       exists reason,
         Worker.vr_log (Worker.verify_certificate_cb eng sess (Some ws))
         = [Worker.Oclog Worker.LOG_INFO
              ("client certificate verification failed: " +:+ reason)]).
Proof.
  intros Hclaim.
  destruct (Hclaim
              (Worker.Engine (fun _ => None) (fun _ => (0, 1026)) (fun _ => 1)
                 (fun _ _ => (-25, ""%string)) (fun _ => ""%string))
              1 (Worker.WorkerSt 1 2 1 (Worker.Cfg 1)) 0 1026) as [reason Hlog].
  - simpl. lia.
  - reflexivity.
  - lia.
  - lia.
  - simpl. lia.
  - vm_compute in Hlog. discriminate Hlog.
Qed.

(** The flag is clear and compatibility is on: the answer follows the
    certificate list of the peer. *)
Lemma tls_has_session_cert_cases_witness :
  let eng := Worker.Engine (fun _ => Some [[48; 130]]) (fun _ => (0, 0)) (fun _ => 1)
               (fun _ _ => (0, ""%string)) (fun _ => ""%string) in
  let ws := Worker.WorkerSt 1 2 0 (Worker.Cfg 1) in
  (Worker.tls_has_session_cert eng ws).1 = 1
  /\ (Worker.tls_has_session_cert eng ws).2 = [Worker.CallGetPeers 1].
Proof.
  intros eng ws.
  destruct (tls_has_session_cert_cases eng ws) as (_ & _ & Hcompat).
  destruct Hcompat as (Hcalls & Hone & _); [reflexivity | simpl; lia |].
  split; [| exact Hcalls].
  apply Hone. simpl. eauto.
Defined.

(** ** Teardown of the session cache *)

Section CacheFacts.
Import CInt Cache.

Lemma safe_memset_lookup (s : list Z) (c n : Z) (k : nat) :
  (k < length s)%nat -> Z.of_nat k < n ->
  safe_memset s c n !! k = Some (to_uint8 c).
Proof.
  intros Hk Hn. unfold safe_memset.
  rewrite lookup_app_l by (rewrite length_replicate; lia).
  apply lookup_replicate_2. lia.
Qed.

Lemma scrub_zeroes (e : tls_cache_st) (k : nat) :
  (k < length (session_data e))%nat -> Z.of_nat k < session_data_size e ->
  session_data (scrub e) !! k = Some 0.
Proof. intros Hk Hn. simpl. apply (safe_memset_lookup _ 0 _ _ Hk Hn). Qed.

(** What the loop does with the entries it enumerates, when they are live
    and distinct. *)
Lemma deinit_loop_scrubs (iter : list nat) (heap : gmap nat tls_cache_st) :
  NoDup iter -> (forall p, p ∈ iter -> is_Some (heap !! p)) ->
  exists heap' evs,
    deinit_loop iter heap = Some (heap', evs)
    /\ Forall entry_event evs
    /\ (forall q, heap !! q = None -> heap' !! q = None)
    /\ (forall p, p ∈ iter -> heap' !! p = None)
    /\ (forall p e, p ∈ iter -> heap !! p = Some e ->
        exists (i : nat) e',
          evs !! i = Some (EvFree p e')
          /\ (0 < session_data_size e ->
              e' = scrub e
              /\ exists j : nat, (j < i)%nat
                   /\ evs !! j = Some (EvMemset p (session_data_size e)))
          /\ (session_data_size e <= 0 -> e' = e)).
Proof.
  revert heap. induction iter as [| c iter IH]; intros heap Hnd Hlive.
  - exists heap, []. simpl. repeat split; auto.
    + intros p Hp. inversion Hp.
    + intros p e Hp. inversion Hp.
  - apply NoDup_cons in Hnd as [Hc Hnd].
    destruct (Hlive c) as [e He]; [left |].
    cbn [deinit_loop]. rewrite He.
    set (step := if session_data_size e >? 0
                 then (scrub e, [EvMemset c (session_data_size e)])
                 else (e, [])).
    destruct step as [e' pre] eqn:Hstep. cbv zeta.
    assert (Hheap : delete c (<[c:=e']> heap) = delete c heap)
      by apply delete_insert_eq.
    rewrite Hheap.
    assert (Hother : forall p, p ∈ iter -> delete c heap !! p = heap !! p).
    { intros p Hp. apply lookup_delete_ne. intros ->. contradiction. }
    destruct (IH (delete c heap) Hnd) as (heap' & rest & Hrun & Hev & Hgone & Hfreed & Hvisit).
    { intros p Hp. rewrite Hother by exact Hp. apply Hlive. right. exact Hp. }
    rewrite Hrun. exists heap', (pre ++ EvFree c e' :: rest).
    assert (Hpre : pre = [] /\ e' = e /\ session_data_size e <= 0
                   \/ pre = [EvMemset c (session_data_size e)] /\ e' = scrub e
                      /\ 0 < session_data_size e).
    { subst step. destruct (session_data_size e >? 0) eqn:Hsz;
        injection Hstep as <- <-.
      - right. apply Z.gtb_lt in Hsz. repeat split; lia.
      - left. rewrite Z.gtb_ltb, Z.ltb_ge in Hsz. repeat split; lia. }
    split; [reflexivity |]. split; [| split; [| split]].
    + apply Forall_app. split.
      * destruct Hpre as [(-> & _) | (-> & _)]; repeat constructor.
      * constructor; [exact I | exact Hev].
    + intros q Hq. apply Hgone. rewrite lookup_delete_None. right. exact Hq.
    + intros p Hp. apply elem_of_cons in Hp as [-> | Hp].
      * apply Hgone. apply lookup_delete_eq.
      * apply Hfreed. exact Hp.
    + intros p e0 Hp He0. apply elem_of_cons in Hp as [-> | Hp].
      * assert (e0 = e) as -> by congruence.
        exists (length pre), e'. split; [| split].
        -- rewrite lookup_app_r by lia. rewrite Nat.sub_diag. reflexivity.
        -- intros Hpos. destruct Hpre as [(_ & _ & Hle) | (-> & -> & _)]; [lia |].
           split; [reflexivity |]. exists 0%nat. split; [simpl; lia | reflexivity].
        -- intros Hle. destruct Hpre as [(_ & -> & _) | (_ & _ & Hpos)]; [reflexivity | lia].
      * destruct (Hvisit p e0 Hp) as (i & e1 & Hi & Hscrub & Hkeep).
        { rewrite Hother by exact Hp. exact He0. }
        exists (length pre + S i)%nat, e1. split; [| split].
        -- rewrite lookup_app_r by lia.
           replace (length pre + S i - length pre)%nat with (S i) by lia. exact Hi.
        -- intros Hpos. destruct (Hscrub Hpos) as (-> & j & Hj & Hmem).
           split; [reflexivity |]. exists (length pre + S j)%nat. split; [lia |].
           rewrite lookup_app_r by lia.
           replace (length pre + S j - length pre)%nat with (S j) by lia. exact Hmem.
        -- exact Hkeep.
Qed.

(** Every release of the trace of the loop, read back: it is the one
    release of an entry of the table, and when that entry had a positive
    data length, what is released is the scrubbed entry, the zeroing being
    earlier in the trace. *)
Lemma deinit_loop_releases (iter : list nat) (heap heap' : gmap nat tls_cache_st)
    (evs : list mem_event) :
  deinit_loop iter heap = Some (heap', evs) ->
  forall (i : nat) p e',
    evs !! i = Some (EvFree p e') ->
    p ∈ iter
    /\ exists e,
         heap !! p = Some e
         /\ (forall (j : nat) e'', evs !! j = Some (EvFree p e'') -> j = i)
         /\ (0 < session_data_size e ->
             e' = scrub e
             /\ exists j : nat, (j < i)%nat
                  /\ evs !! j = Some (EvMemset p (session_data_size e)))
         /\ (session_data_size e <= 0 -> e' = e).
Proof.
  revert heap heap' evs. induction iter as [| c iter IH]; intros heap heap' evs Hrun.
  - injection Hrun as <- <-. intros i p e' Hi. destruct i; discriminate.
  - cbn [deinit_loop] in Hrun.
    destruct (heap !! c) as [e |] eqn:He; [| discriminate].
    destruct (if session_data_size e >? 0
              then (scrub e, [EvMemset c (session_data_size e)])
              else (e, [])) as [e1 pre] eqn:Hstep.
    rewrite delete_insert_eq in Hrun.
    destruct (deinit_loop iter (delete c heap)) as [[heap1 rest] |] eqn:Hrec;
      [| discriminate].
    injection Hrun as <- <-.
    pose proof (IH _ _ _ Hrec) as Hrest.
    assert (Hnot : forall (j : nat) e'', rest !! j <> Some (EvFree c e'')).
    { intros j e'' Hj. destruct (Hrest _ _ _ Hj) as (_ & e0 & Hl & _).
      rewrite lookup_delete_eq in Hl. discriminate. }
    assert (Hlift : forall p e0, delete c heap !! p = Some e0 ->
                                 p <> c /\ heap !! p = Some e0).
    { intros p e0 Hl. apply lookup_delete_Some in Hl as [Hne Hl]. auto. }
    destruct (session_data_size e >? 0) eqn:Hsz; injection Hstep as <- <-.
    + apply Z.gtb_lt in Hsz. intros i p e' Hi.
      destruct i as [| [| i]]; cbn in Hi; [discriminate | |].
      * injection Hi as <- <-. split; [left |].
        exists e. split; [exact He |]. split; [| split].
        -- intros j e'' Hj. destruct j as [| [| j]]; cbn in Hj;
             [discriminate | reflexivity |].
           exfalso. exact (Hnot _ _ Hj).
        -- intros _. split; [reflexivity |]. exists 0%nat. split; [lia | reflexivity].
        -- lia.
      * destruct (Hrest _ _ _ Hi) as (Hin & e0 & Hl & Huniq & Hpos & Hzero).
        destruct (Hlift _ _ Hl) as [Hne Hl']. split; [right; exact Hin |].
        exists e0. split; [exact Hl' |]. split; [| split; [| exact Hzero]].
        -- intros j e'' Hj. destruct j as [| [| j]]; cbn in Hj; [discriminate | |].
           ++ injection Hj as Hc _. congruence.
           ++ f_equal. f_equal. exact (Huniq _ _ Hj).
        -- intros H0. destruct (Hpos H0) as (-> & j & Hj & Hmem).
           split; [reflexivity |]. exists (S (S j)). split; [lia | exact Hmem].
    + rewrite Z.gtb_ltb, Z.ltb_ge in Hsz. intros i p e' Hi.
      destruct i as [| i]; cbn in Hi.
      * injection Hi as <- <-. split; [left |].
        exists e. split; [exact He |]. split; [| split].
        -- intros j e'' Hj. destruct j as [| j]; cbn in Hj; [reflexivity |].
           exfalso. exact (Hnot _ _ Hj).
        -- lia.
        -- reflexivity.
      * destruct (Hrest _ _ _ Hi) as (Hin & e0 & Hl & Huniq & Hpos & Hzero).
        destruct (Hlift _ _ Hl) as [Hne Hl']. split; [right; exact Hin |].
        exists e0. split; [exact Hl' |]. split; [| split; [| exact Hzero]].
        -- intros j e'' Hj. destruct j as [| j]; cbn in Hj.
           ++ injection Hj as Hc _. congruence.
           ++ f_equal. exact (Huniq _ _ Hj).
        -- intros H0. destruct (Hpos H0) as (-> & j & Hj & Hmem).
           split; [reflexivity |]. exists (S j). split; [lia | exact Hmem].
Qed.

(** C1: on a database whose table holds the addresses of live, distinct
    entries, [tls_cache_deinit] runs to its end.  Every entry of the table is
    released, and it is released once.  Whenever an entry is released whose
    data length was positive, what is released is zero over that length and
    records the length 0, and the zeroing is earlier in the trace than the
    release: no entry is released with its data in it.  The clearing of the
    table and the release of the database are the last two events, after
    everything that concerns an entry. *)
Theorem tls_cache_deinit_scrubs_first (heap : gmap nat tls_cache_st) (db : hash_db_st) :
  NoDup (ht db) -> (forall p, p ∈ ht db -> is_Some (heap !! p)) ->
  exists heap' evs,
    tls_cache_deinit heap db = Some (heap', evs ++ [EvHtClear; EvFreeDb (HashDb [] 0)])
    /\ Forall entry_event evs
    /\ (forall p e, p ∈ ht db -> heap !! p = Some e ->
        heap' !! p = None
        /\ exists (i : nat) e',
             evs !! i = Some (EvFree p e')
             /\ (0 < session_data_size e ->
                 session_data_size e' = 0
                 /\ (forall k : nat,
                       (k < length (session_data e))%nat ->
                       Z.of_nat k < session_data_size e ->
                       session_data e' !! k = Some 0)
                 /\ exists j : nat, (j < i)%nat
                      /\ evs !! j = Some (EvMemset p (session_data_size e))))
    /\ (forall (i : nat) p e',
          evs !! i = Some (EvFree p e') ->
          p ∈ ht db
          /\ exists e,
               heap !! p = Some e
               /\ (forall (j : nat) e'', evs !! j = Some (EvFree p e'') -> j = i)
               /\ (0 < session_data_size e ->
                   session_data_size e' = 0
                   /\ (forall k : nat,
                         (k < length (session_data e))%nat ->
                         Z.of_nat k < session_data_size e ->
                         session_data e' !! k = Some 0)
                   /\ exists j : nat, (j < i)%nat
                        /\ evs !! j = Some (EvMemset p (session_data_size e)))).
Proof.
  intros Hnd Hlive.
  destruct (deinit_loop_scrubs (ht db) heap Hnd Hlive)
    as (heap' & evs & Hrun & Hev & _ & Hfreed & Hvisit).
  exists heap', evs. unfold tls_cache_deinit. rewrite Hrun.
  split; [reflexivity |]. split; [exact Hev |]. split.
  - intros p e Hp He. split; [apply Hfreed; exact Hp |].
    destruct (Hvisit p e Hp He) as (i & e' & Hi & Hscrub & _).
    exists i, e'. split; [exact Hi |].
    intros Hpos. destruct (Hscrub Hpos) as (-> & Hmem).
    split; [reflexivity |]. split; [| exact Hmem].
    intros k Hk Hn. apply scrub_zeroes; assumption.
  - intros i p e' Hi.
    destruct (deinit_loop_releases _ _ _ _ Hrun _ _ _ Hi)
      as (Hin & e & He & Huniq & Hpos & _).
    split; [exact Hin |]. exists e. split; [exact He |]. split; [exact Huniq |].
    intros H0. destruct (Hpos H0) as (-> & Hmem).
    split; [reflexivity |]. split; [| exact Hmem].
    intros k Hk Hn. apply scrub_zeroes; assumption.
Qed.

(** A database of two entries, one with three bytes of session data. *)
Lemma tls_cache_deinit_scrubs_first_witness :
  let heap : gmap nat tls_cache_st :=
    <[1%nat := TlsCache [1; 2] 2 [9; 9; 9; 0] 3]>
      (<[2%nat := TlsCache [3] 1 [0; 0; 0; 0] 0]> ∅) in
  let db := HashDb [1%nat; 2%nat] 2 in
  exists heap' evs,
    tls_cache_deinit heap db = Some (heap', evs ++ [EvHtClear; EvFreeDb (HashDb [] 0)])
    /\ Forall entry_event evs.
Proof.
  intros heap db.
  assert (Hnd : NoDup (ht db)).
  { simpl. apply (bool_decide_unpack _). vm_compute. reflexivity. }
  assert (Hlive : forall p, p ∈ ht db -> is_Some (heap !! p)).
  { intros p Hp. simpl in Hp.
    apply elem_of_cons in Hp as [-> | Hp]; [vm_compute; eauto |].
    apply elem_of_cons in Hp as [-> | Hp]; [vm_compute; eauto |].
    inversion Hp. }
  destruct (tls_cache_deinit_scrubs_first heap db Hnd Hlive)
    as (heap' & evs & Hrun & Hev & _).
  exists heap', evs. split; assumption.
Defined.

End CacheFacts.

(** ** The delegation round trip *)

Section KeyDelegationFacts.
Import CInt Gnutls KeyDelegation.

Lemma fresh_not_live (heap : gmap nat block) : heap !! fresh (dom heap) = None.
Proof. apply not_elem_of_dom. apply is_fresh. Qed.

Lemma free_fresh (heap : gmap nat block) (b1 b2 : block) :
  delete (fresh (dom heap)) (<[fresh (dom heap) := b2]> (<[fresh (dom heap) := b1]> heap))
  = heap.
Proof.
  rewrite delete_insert_eq, delete_insert_eq.
  apply delete_id. apply fresh_not_live.
Qed.

Lemma free_fresh1 (heap : gmap nat block) (b1 : block) :
  delete (fresh (dom heap)) (<[fresh (dom heap) := b1]> heap) = heap.
Proof. rewrite delete_insert_eq. apply delete_id. apply fresh_not_live. Qed.

Lemma recv_positive (answer : option (list Z)) (n ret : Z) (got : list Z) :
  recv answer n = (ret, got) -> 0 < ret ->
  ret = Z.of_nat (length got) /\ ret <= n.
Proof.
  destruct answer as [bytes |]; simpl; intros [= <- <-]; [| lia].
  rewrite length_take. lia.
Qed.

(** Case analysis over the tests of [key_cb_common_func], in the order of
    the code, with the tests turned into facts on integers. *)
Ltac round_trip_cases :=
  unfold key_cb_common_func, key_cb_error;
  repeat match goal with
    | |- context [if ?c then _ else _] => destruct c eqn:?
    | |- context [let '(_, _) := ?x in _] => destruct x eqn:?
    end;
  cbn [rt_ret rt_heap rt_output rt_trace data size gnutls_free fst snd] in *;
  repeat match goal with
    | H : (_ =? _) = true |- _ => apply Z.eqb_eq in H
    | H : (_ =? _) = false |- _ => apply Z.eqb_neq in H
    | H : (_ <? _) = true |- _ => apply Z.ltb_lt in H
    | H : (_ <? _) = false |- _ => apply Z.ltb_ge in H
    | H : (_ <=? _) = true |- _ => apply Z.leb_le in H
    | H : (_ <=? _) = false |- _ => apply Z.leb_gt in H
    end.

(** C2, as amended: when one of the steps fails as the code tests it, the
    result is the internal error, the heap is what it was on entry (a block
    allocated for the output has been released) and the engine is given no
    bytes.  When none fails, the result is 0 and the output is the bytes the
    body read delivered, at least one and at most the advertised length;
    a body shorter than advertised is returned as the result. *)
Theorem key_cb_common_func_failures (k : kernel) (heap : gmap nat block)
    (cdata : key_cb_data) (raw_data : list Z) (output : gnutls_datum_t) (type : Z) :
  let r := key_cb_common_func k heap cdata raw_data output type in
  (step_fails k ->
     rt_ret r = GNUTLS_E_INTERNAL_ERROR /\ rt_heap r = heap /\ returned_bytes r = None)
  /\ (~ step_fails k ->
      rt_ret r = 0
      /\ returned_bytes r = Some (recv (k_recv_body k) (advertised_length k)).2
      /\ size (rt_output r) = Z.of_nat (length (recv (k_recv_body k) (advertised_length k)).2)
      /\ 0 < size (rt_output r) <= advertised_length k).
Proof.
  cbv zeta. unfold step_fails, returned_bytes, advertised_length. split.
  - intros Hfail. round_trip_cases; try (repeat split; reflexivity).
    + rewrite free_fresh, fresh_not_live. repeat split; reflexivity.
    + exfalso.
      match goal with H : recv (k_recv_body k) _ = _ |- _ => rewrite H in Hfail end.
      cbn [fst snd] in Hfail.
      destruct Hfail as [? | [? | [? | [? | [? | ?]]]]]; try lia; congruence.
  - intros Hok. round_trip_cases;
      try (exfalso; apply Hok; clear Hok;
           repeat match goal with
             | H : recv _ _ = _ |- _ => rewrite H; clear H
             end;
           cbn [fst snd]; auto 10; fail).
    match goal with
    | H : recv (k_recv_body k) _ = (?ret, ?got) |- _ =>
        rewrite H; destruct (recv_positive _ _ _ _ H) as [Hlen Hle]; [lia |]
    end.
    cbn [fst snd]. rewrite lookup_insert_eq. cbn [stored].
    rewrite Hlen, Nat2Z.id, take_ge by lia.
    repeat split; try reflexivity; lia.
Qed.

(** The amended statement on a custodian that advertises 5 bytes and
    delivers none. *)
Lemma key_cb_common_func_failures_witness :
  let k := Kernel 3 0 7 (Some [5; 0]) true (Some []) false in
  let r := key_cb_common_func k ∅ (KeyCbData 0 "/var/run/ocserv-socket" 24)
             [1; 2; 3; 4; 5] (Datum None 0) 83 in
  rt_ret r = GNUTLS_E_INTERNAL_ERROR /\ rt_heap r = ∅ /\ returned_bytes r = None.
Proof.
  intros k r.
  apply (key_cb_common_func_failures k ∅ (KeyCbData 0 "/var/run/ocserv-socket" 24)
           [1; 2; 3; 4; 5] (Datum None 0) 83).
  unfold step_fails. do 5 right. vm_compute. discriminate.
Defined.

(** C2, as stated, fails when the length field advertises 5 bytes and the
    body read delivers 3: the function returns 0, not the internal error,
    and the engine is given the 3 bytes. *)
Lemma key_cb_common_func_short_body :
  let k := Kernel 3 0 7 (Some [5; 0]) true (Some [10; 20; 30]) false in
  let r := key_cb_common_func k ∅ (KeyCbData 0 "/var/run/ocserv-socket" 24)
             [1; 2; 3; 4; 5] (Datum None 0) 83 in
  advertised_length k = 5
  /\ rt_ret r = 0
  /\ rt_ret r <> GNUTLS_E_INTERNAL_ERROR
  /\ size (rt_output r) = 3
  /\ returned_bytes r = Some [10; 20; 30].
Proof. vm_compute. repeat split; try reflexivity. discriminate. Qed.



End KeyDelegationFacts.

(** ** Record overhead *)

Section OverheadFacts.
Import CInt Overhead.

Lemma to_unsigned_int_add_l a b :
  to_unsigned_int (to_unsigned_int a + b) = to_unsigned_int (a + b).
Proof. unfold to_unsigned_int, to_unsigned. apply Zplus_mod_idemp_l. Qed.

Lemma to_unsigned_int_add_r a b :
  to_unsigned_int (a + to_unsigned_int b) = to_unsigned_int (a + b).
Proof. unfold to_unsigned_int, to_unsigned. apply Zplus_mod_idemp_r. Qed.

Lemma to_unsigned_int_range a : 0 <= to_unsigned_int a < 2 ^ 32.
Proof. unfold to_unsigned_int, to_unsigned. apply Z.mod_pos_bound. lia. Qed.

Lemma to_unsigned_int_small a : 0 <= a < 4294967296 -> to_unsigned_int a = a.
Proof. apply (to_unsigned_id 32). Qed.

(** The last step of the function: the MAC length is added when positive. *)
Lemma add_mac_len x t :
  (if to_unsigned_int t >? 0
   then to_unsigned_int (to_unsigned_int x + to_unsigned_int t)
   else to_unsigned_int x)
  = to_unsigned_int (x + to_unsigned_int t).
Proof.
  pose proof (to_unsigned_int_range t) as Ht.
  destruct (to_unsigned_int t >? 0) eqn:E.
  - apply to_unsigned_int_add_l.
  - rewrite Z.gtb_ltb, Z.ltb_ge in E.
    replace (to_unsigned_int t) with 0 by lia. rewrite Z.add_0_r. reflexivity.
Qed.

Variable eng : engine.
Hypothesis before_3_2_7 : GNUTLS_VERSION_NUMBER eng < 0x030207.

(** The function, for an engine before 3.2.7, in one sum. *)
Lemma tls_get_overhead_sum version cipher mac :
  tls_get_overhead eng version cipher mac
  = to_unsigned_int
      (header_overhead eng version
       + (if cipher_listed_cbc cipher
          then to_unsigned_int (gnutls_cipher_get_block_size eng cipher)
               + to_unsigned_int (gnutls_cipher_get_block_size eng cipher)
          else if cipher_listed_gcm cipher
          then 8 + to_unsigned_int (gnutls_cipher_get_block_size eng cipher)
          else 0)
       + to_unsigned_int (gnutls_hmac_get_len eng mac)).
Proof.
  unfold tls_get_overhead.
  replace (0x030207 <=? GNUTLS_VERSION_NUMBER eng) with false
    by (symmetry; apply Z.leb_gt; exact before_3_2_7).
  cbv zeta. rewrite Z.add_0_l.
  set (h := header_overhead eng version).
  set (b := to_unsigned_int (gnutls_cipher_get_block_size eng cipher)).
  destruct cipher; cbn [cipher_overhead cipher_listed_cbc cipher_listed_gcm];
    rewrite add_mac_len;
    repeat (rewrite <- ?Z.add_assoc, to_unsigned_int_add_l);
    f_equal; lia.
Qed.

Lemma header_overhead_cases version :
  (version_listed eng version = true -> header_overhead eng version = 13)
  /\ (version_listed eng version = false -> header_overhead eng version = 5).
Proof.
  destruct version; cbn [version_listed header_overhead];
    try destruct (0x030200 <=? GNUTLS_VERSION_NUMBER eng); split; congruence.
Qed.

(** C6, as amended: the header is 5 bytes on a stream version and 13 on a
    datagram version; a CBC cipher the switch names adds its block size
    twice and the output length of the MAC, which with a 16-byte block and a
    20-byte MAC is 57 on a stream and 65 on datagrams; a GCM cipher the
    switch names adds 8 and its block size, and with a 16-byte block and the
    MAC of an AEAD suite, whose output length is 0, the result is the header
    plus 8 plus 16; a cipher the switch does not name adds nothing, the
    result being the header and the output length of the MAC. *)
Theorem tls_get_overhead_accounting version cipher mac :
  (transport_of version = Some StreamTransport -> header_overhead eng version = 5)
  /\ (transport_of version = Some DatagramTransport ->
      (version = GNUTLS_DTLS1_2 -> 0x030200 <= GNUTLS_VERSION_NUMBER eng) ->
      header_overhead eng version = 13)
  /\ (cipher_listed_cbc cipher = true ->
      tls_get_overhead eng version cipher mac
      = to_unsigned_int
          (header_overhead eng version
           + to_unsigned_int (gnutls_cipher_get_block_size eng cipher)
           + to_unsigned_int (gnutls_cipher_get_block_size eng cipher)
           + to_unsigned_int (gnutls_hmac_get_len eng mac)))
  /\ (cipher_listed_cbc cipher = true ->
      gnutls_cipher_get_block_size eng cipher = 16 ->
      gnutls_hmac_get_len eng mac = 20 ->
      (header_overhead eng version = 5 -> tls_get_overhead eng version cipher mac = 57)
      /\ (header_overhead eng version = 13 -> tls_get_overhead eng version cipher mac = 65))
  /\ (cipher_listed_gcm cipher = true ->
      tls_get_overhead eng version cipher mac
      = to_unsigned_int
          (header_overhead eng version + 8
           + to_unsigned_int (gnutls_cipher_get_block_size eng cipher)
           + to_unsigned_int (gnutls_hmac_get_len eng mac)))
  /\ (cipher_listed_gcm cipher = true ->
      gnutls_cipher_get_block_size eng cipher = 16 ->
      gnutls_hmac_get_len eng mac = 0 ->
      tls_get_overhead eng version cipher mac = header_overhead eng version + 8 + 16)
  /\ (cipher_listed cipher = false ->
      tls_get_overhead eng version cipher mac
      = to_unsigned_int
          (header_overhead eng version
           + to_unsigned_int (gnutls_hmac_get_len eng mac))).
Proof.
  assert (Hh : header_overhead eng version = 5 \/ header_overhead eng version = 13).
  { destruct (version_listed eng version) eqn:E;
      [right | left]; apply header_overhead_cases; exact E. }
  split; [| split; [| split; [| split; [| split; [| split]]]]].
  - destruct version; cbn [transport_of header_overhead]; congruence.
  - intros Htr H12. destruct version; cbn [transport_of header_overhead] in *;
      try congruence.
    replace (0x030200 <=? GNUTLS_VERSION_NUMBER eng) with true; [reflexivity |].
    symmetry. apply Z.leb_le. apply H12. reflexivity.
  - intros Hcbc. rewrite tls_get_overhead_sum, Hcbc.
    f_equal. lia.
  - intros Hcbc Hb Hm. rewrite tls_get_overhead_sum, Hcbc.
    rewrite Hb, Hm.
    split; intros ->; reflexivity.
  - intros Hgcm. rewrite tls_get_overhead_sum, Hgcm.
    destruct cipher; try discriminate; cbn [cipher_listed_cbc]; f_equal; lia.
  - intros Hgcm Hb Hm. rewrite tls_get_overhead_sum, Hgcm.
    rewrite Hb, Hm.
    destruct cipher; try discriminate; cbn [cipher_listed_cbc];
      destruct Hh as [-> | ->]; reflexivity.
  - intros Hun. rewrite tls_get_overhead_sum.
    destruct cipher; try discriminate; cbn [cipher_listed_cbc cipher_listed_gcm];
      f_equal; lia.
Qed.

(** C5, as amended: for a cipher the switch does not name nothing is added
    for the cipher, the result is the header plus the output length of the
    MAC; for a version the switch does not name the header is 5.  When the
    header is that of the transport: for an unnamed stream cipher the result
    is the overhead the specification defines; for an unnamed block cipher
    it is smaller than that overhead, by the two cipher blocks; for an
    unnamed AEAD cipher it falls short of that overhead by nonce and tag and
    exceeds it by the MAC length passed, so that it is smaller exactly when
    that length is below nonce plus tag, as the length 0 of the AEAD MAC
    is. *)
Theorem tls_get_overhead_unlisted version cipher mac :
  cipher_listed cipher = false ->
  tls_get_overhead eng version cipher mac
  = to_unsigned_int
      (header_overhead eng version + to_unsigned_int (gnutls_hmac_get_len eng mac))
  /\ (version_listed eng version = false -> header_overhead eng version = 5)
  /\ (forall tr,
        transport_of version = Some tr ->
        (tr = DatagramTransport -> version_listed eng version = true) ->
        cipher_mode_of cipher = StreamMode ->
        0 <= gnutls_hmac_get_len eng mac < 2 ^ 31 ->
        tls_get_overhead eng version cipher mac
        = true_overhead tr (cipher_mode_of cipher) (gnutls_hmac_get_len eng mac))
  /\ (forall tr b,
        transport_of version = Some tr ->
        (tr = DatagramTransport -> version_listed eng version = true) ->
        cipher_mode_of cipher = BlockMode b ->
        0 <= gnutls_hmac_get_len eng mac < 2 ^ 31 ->
        0 < b
        /\ tls_get_overhead eng version cipher mac + b + b
           = true_overhead tr (cipher_mode_of cipher) (gnutls_hmac_get_len eng mac)
        /\ tls_get_overhead eng version cipher mac
           < true_overhead tr (cipher_mode_of cipher) (gnutls_hmac_get_len eng mac))
  /\ (forall tr nonce tag,
        transport_of version = Some tr ->
        (tr = DatagramTransport -> version_listed eng version = true) ->
        cipher_mode_of cipher = AeadMode nonce tag ->
        0 <= gnutls_hmac_get_len eng mac < 2 ^ 31 ->
        tls_get_overhead eng version cipher mac + nonce + tag
        = true_overhead tr (cipher_mode_of cipher) (gnutls_hmac_get_len eng mac)
          + gnutls_hmac_get_len eng mac
        /\ (tls_get_overhead eng version cipher mac
            < true_overhead tr (cipher_mode_of cipher) (gnutls_hmac_get_len eng mac)
            <-> gnutls_hmac_get_len eng mac < nonce + tag)).
Proof.
  intros Hun.
  assert (Hsum : tls_get_overhead eng version cipher mac
                 = to_unsigned_int
                     (header_overhead eng version
                      + to_unsigned_int (gnutls_hmac_get_len eng mac))).
  { rewrite tls_get_overhead_sum.
    destruct cipher; try discriminate; cbn [cipher_listed_cbc cipher_listed_gcm];
      f_equal; lia. }
  assert (Hval : forall tr,
             transport_of version = Some tr ->
             (tr = DatagramTransport -> version_listed eng version = true) ->
             0 <= gnutls_hmac_get_len eng mac < 2 ^ 31 ->
             tls_get_overhead eng version cipher mac
             = match tr with StreamTransport => 5 | DatagramTransport => 13 end
               + gnutls_hmac_get_len eng mac).
  { intros tr Htr Hdg Hmac. rewrite Hsum.
    change (2 ^ 31) with 2147483648 in Hmac.
    rewrite (to_unsigned_int_small (gnutls_hmac_get_len eng mac)) by lia.
    destruct (header_overhead_cases version) as [H13 H5].
    destruct tr.
    - assert (Hv : version_listed eng version = false)
        by (destruct version; cbn [transport_of version_listed] in *; congruence).
      rewrite (H5 Hv). apply to_unsigned_int_small. lia.
    - rewrite (H13 (Hdg eq_refl)). apply to_unsigned_int_small. lia. }
  split; [exact Hsum |]. split; [apply header_overhead_cases |].
  split; [| split].
  - intros tr Htr Hdg Hmode Hmac. rewrite (Hval tr Htr Hdg Hmac), Hmode.
    reflexivity.
  - intros tr b Htr Hdg Hmode Hmac. rewrite (Hval tr Htr Hdg Hmac), Hmode.
    assert (Hb : b = 8)
      by (destruct cipher; cbn [cipher_mode_of cipher_listed] in *; congruence).
    subst b. unfold true_overhead. lia.
  - intros tr nonce tag Htr Hdg Hmode Hmac. rewrite (Hval tr Htr Hdg Hmac), Hmode.
    unfold true_overhead. lia.
Qed.

End OverheadFacts.

(** AES-128-CBC with HMAC-SHA1: 57 bytes on TLS 1.0, 65 on DTLS 1.0.
    AES-128-GCM with the MAC of an AEAD suite on TLS 1.2: 5 + 8 + 16. *)
Lemma tls_get_overhead_accounting_witness :
  Overhead.tls_get_overhead Overhead.gnutls_3_2_0 Overhead.GNUTLS_TLS1_0
    Overhead.GNUTLS_CIPHER_AES_128_CBC Overhead.GNUTLS_MAC_SHA1 = 57
  /\ Overhead.tls_get_overhead Overhead.gnutls_3_2_0 Overhead.GNUTLS_DTLS1_0
       Overhead.GNUTLS_CIPHER_AES_128_CBC Overhead.GNUTLS_MAC_SHA1 = 65
  /\ Overhead.tls_get_overhead Overhead.gnutls_3_2_0 Overhead.GNUTLS_TLS1_2
       Overhead.GNUTLS_CIPHER_AES_128_GCM Overhead.GNUTLS_MAC_AEAD = 5 + 8 + 16.
Proof.
  assert (Hold : Overhead.GNUTLS_VERSION_NUMBER Overhead.gnutls_3_2_0 < 0x030207)
    by (simpl; lia).
  split; [| split].
  - destruct (tls_get_overhead_accounting Overhead.gnutls_3_2_0 Hold
                Overhead.GNUTLS_TLS1_0 Overhead.GNUTLS_CIPHER_AES_128_CBC
                Overhead.GNUTLS_MAC_SHA1) as (Hs & _ & _ & Hblock & _).
    destruct Hblock as [H57 _]; [reflexivity | reflexivity | reflexivity |].
    apply H57. apply Hs. reflexivity.
  - destruct (tls_get_overhead_accounting Overhead.gnutls_3_2_0 Hold
                Overhead.GNUTLS_DTLS1_0 Overhead.GNUTLS_CIPHER_AES_128_CBC
                Overhead.GNUTLS_MAC_SHA1) as (_ & Hd & _ & Hblock & _).
    destruct Hblock as [_ H65]; [reflexivity | reflexivity | reflexivity |].
    apply H65. apply Hd; [reflexivity | discriminate].
  - destruct (tls_get_overhead_accounting Overhead.gnutls_3_2_0 Hold
                Overhead.GNUTLS_TLS1_2 Overhead.GNUTLS_CIPHER_AES_128_GCM
                Overhead.GNUTLS_MAC_AEAD) as (_ & _ & _ & _ & _ & Hgcm & _).
    apply Hgcm; reflexivity.
Defined.

(** C6, as stated, fails for an AEAD cipher the switch does not name:
    Camellia-128-GCM, of 8-byte explicit nonce and 16-byte tag, with the MAC
    of an AEAD suite on TLS 1.2 gives the header alone, 5, not 5 + 8 + 16. *)
Lemma tls_get_overhead_unlisted_aead :
  ~ (forall eng version cipher mac,
       Overhead.GNUTLS_VERSION_NUMBER eng < 0x030207 ->
       Overhead.cipher_mode_of cipher = Overhead.AeadMode 8 16 ->
       Overhead.gnutls_cipher_get_block_size eng cipher = 16 ->
       Overhead.gnutls_hmac_get_len eng mac = 0 ->
       Overhead.tls_get_overhead eng version cipher mac
       = Overhead.header_overhead eng version + 8 + 16).
Proof.
  intros Hclaim.
  specialize (Hclaim Overhead.gnutls_3_2_0 Overhead.GNUTLS_TLS1_2
                Overhead.GNUTLS_CIPHER_CAMELLIA_128_GCM Overhead.GNUTLS_MAC_AEAD).
  vm_compute in Hclaim.
  assert (H : 5%Z = 29%Z) by (apply Hclaim; reflexivity).
  discriminate H.
Qed.

(** ARCFOUR-128 with HMAC-SHA1 on TLS 1.0, a cipher the switch does not
    name: the result is 25, the overhead of the combination.  DES-CBC with
    HMAC-SHA1 on TLS 1.0: the result falls short of the overhead by two
    blocks of 8 bytes. *)
Lemma tls_get_overhead_unlisted_witness :
  Overhead.tls_get_overhead Overhead.gnutls_3_2_0 Overhead.GNUTLS_TLS1_0
    Overhead.GNUTLS_CIPHER_ARCFOUR_128 Overhead.GNUTLS_MAC_SHA1
  = Overhead.true_overhead Overhead.StreamTransport Overhead.StreamMode 20
  /\ Overhead.tls_get_overhead Overhead.gnutls_3_2_0 Overhead.GNUTLS_TLS1_0
       Overhead.GNUTLS_CIPHER_DES_CBC Overhead.GNUTLS_MAC_SHA1 + 8 + 8
     = Overhead.true_overhead Overhead.StreamTransport (Overhead.BlockMode 8) 20.
Proof.
  assert (Hold : Overhead.GNUTLS_VERSION_NUMBER Overhead.gnutls_3_2_0 < 0x030207)
    by (simpl; lia).
  split.
  - destruct (tls_get_overhead_unlisted Overhead.gnutls_3_2_0 Hold
                Overhead.GNUTLS_TLS1_0 Overhead.GNUTLS_CIPHER_ARCFOUR_128
                Overhead.GNUTLS_MAC_SHA1 eq_refl) as (_ & _ & Htrue & _).
    apply (Htrue Overhead.StreamTransport eq_refl).
    + discriminate.
    + reflexivity.
    + simpl. lia.
  - destruct (tls_get_overhead_unlisted Overhead.gnutls_3_2_0 Hold
                Overhead.GNUTLS_TLS1_0 Overhead.GNUTLS_CIPHER_DES_CBC
                Overhead.GNUTLS_MAC_SHA1 eq_refl) as (_ & _ & _ & Hblock & _).
    destruct (Hblock Overhead.StreamTransport 8 eq_refl) as (_ & Hsum & _).
    + discriminate.
    + reflexivity.
    + simpl. lia.
    + exact Hsum.
Defined.

(** C5, as stated, fails for DES-CBC with HMAC-SHA1 on TLS 1.0, a block
    cipher the switch does not name: the function answers 25, the overhead
    of the combination is 5 + 8 + 8 + 20 = 41. *)
Lemma tls_get_overhead_unlisted_block_cipher :
  ~ (forall eng version cipher mac tr,
       Overhead.GNUTLS_VERSION_NUMBER eng < 0x030207 ->
       Overhead.cipher_listed cipher = false
       \/ Overhead.version_listed eng version = false ->
       Overhead.transport_of version = Some tr ->
       Overhead.true_overhead tr (Overhead.cipher_mode_of cipher)
         (Overhead.gnutls_hmac_get_len eng mac)
       <= Overhead.tls_get_overhead eng version cipher mac).
Proof.
  intros Hclaim.
  specialize (Hclaim Overhead.gnutls_3_2_0 Overhead.GNUTLS_TLS1_0
                Overhead.GNUTLS_CIPHER_DES_CBC Overhead.GNUTLS_MAC_SHA1
                Overhead.StreamTransport).
  assert (H : 41 <= 25).
  { apply Hclaim; [simpl; lia | left; reflexivity | reflexivity]. }
  lia.
Qed.

(** ** More on the transport adapter *)

Section TransportMore.
Import CInt Gnutls TransportIO TransportFile.

Lemma retryable_test r :
  (r <? 0) && ((r =? GNUTLS_E_INTERRUPTED) || (r =? GNUTLS_E_AGAIN)) = true
  <-> retryable r.
Proof.
  unfold retryable, GNUTLS_E_AGAIN, GNUTLS_E_INTERRUPTED.
  rewrite andb_true_iff, orb_true_iff, Z.ltb_lt, !Z.eqb_eq. lia.
Qed.

Lemma tls_recv_retries pre rest :
  Forall retryable pre ->
  tls_recv (pre ++ rest)
  = let '(o, n) := tls_recv rest in (o, (length pre + n)%nat).
Proof.
  induction pre as [| r pre IH]; intros Hre.
  - simpl. destruct (tls_recv rest). reflexivity.
  - apply Forall_cons in Hre as [Hr Hre]. apply retryable_test in Hr.
    cbn [app tls_recv]. rewrite Hr, (IH Hre).
    destruct (tls_recv rest). reflexivity.
Qed.

(** X1: [tls_recv] calls the engine again after every would-block or
    interrupted answer and returns the first other answer as it is, a byte
    count, 0 or an error, with no call after it. *)
Theorem tls_recv_first_other (pre : list Z) :
  Forall retryable pre ->
  tls_recv pre = (Retrying, length pre)
  /\ forall r post,
       ~ retryable r ->
       tls_recv (pre ++ r :: post) = (Returned r, S (length pre)).
Proof.
  intros Hre. split.
  - rewrite <- (app_nil_r pre) at 1. rewrite (tls_recv_retries _ _ Hre).
    simpl. f_equal. lia.
  - intros r post Hr. rewrite (tls_recv_retries _ _ Hre).
    cbn [tls_recv].
    destruct ((r <? 0) && ((r =? GNUTLS_E_INTERRUPTED) || (r =? GNUTLS_E_AGAIN)))
      eqn:E.
    + apply retryable_test in E. contradiction.
    + f_equal. lia.
Qed.

(** The peer closes in good order after one interruption and one
    would-block. *)
Lemma tls_recv_first_other_witness :
  tls_recv [GNUTLS_E_INTERRUPTED; GNUTLS_E_AGAIN; 0; 17] = (Returned 0, 3%nat).
Proof.
  assert (Hre : Forall retryable [GNUTLS_E_INTERRUPTED; GNUTLS_E_AGAIN]).
  { apply Forall_cons. split; [right; reflexivity |].
    apply Forall_cons. split; [left; reflexivity | apply Forall_nil_2]. }
  destruct (tls_recv_first_other _ Hre) as [_ Hfirst].
  apply (Hfirst 0 [17]).
  unfold retryable, GNUTLS_E_AGAIN, GNUTLS_E_INTERRUPTED. lia.
Defined.






Lemma calls_of_lookup results ds p (i : nat) c :
  calls_of results ds p !! i = Some c ->
  sc_size c = ds /\ sc_offset c = p + accepted (take i results).
Proof.
  revert p i. induction results as [| r results IH]; intros p i Hc.
  - destruct i; discriminate.
  - destruct i as [| i]; cbn [calls_of] in Hc.
    + injection Hc as <-. simpl. split; [reflexivity | lia].
    + apply IH in Hc as [Hs Ho]. split; [exact Hs |].
      rewrite Ho. cbn [take accepted foldr]. fold (accepted (take i results)).
      destruct (r >? 0); lia.
Qed.

Lemma tls_send_loop_calls engine ds left p o calls :
  tls_send_loop engine ds left p = (o, calls) ->
  calls = calls_of (take (length calls) engine) ds p.
Proof.
  revert left p o calls. induction engine as [| r engine IH]; intros left p o calls Hrun.
  - simpl in Hrun. destruct (left >? 0); injection Hrun as _ <-; reflexivity.
  - cbn [tls_send_loop] in Hrun. destruct (left >? 0).
    + destruct (send_fatal r).
      * injection Hrun as _ <-. reflexivity.
      * destruct (r >? 0) eqn:E.
        -- destruct (tls_send_loop engine ds (left - r) (p + r)) as [o' cs] eqn:Hrec.
           injection Hrun as _ <-. apply IH in Hrec.
           cbn [length take calls_of]. rewrite E, <- Hrec. reflexivity.
        -- destruct (tls_send_loop engine ds left p) as [o' cs] eqn:Hrec.
           injection Hrun as _ <-. apply IH in Hrec.
           cbn [length take calls_of]. rewrite E, <- Hrec. reflexivity.
    + injection Hrun as _ <-. reflexivity.
Qed.

Lemma tls_send_nb_loop_calls engine ds left p o calls :
  tls_send_nb_loop engine ds left p = (o, calls) ->
  calls = calls_of (take (length calls) engine) ds p.
Proof.
  revert left p o calls. induction engine as [| r engine IH]; intros left p o calls Hrun.
  - simpl in Hrun. destruct (left >? 0); injection Hrun as _ <-; reflexivity.
  - cbn [tls_send_nb_loop] in Hrun. destruct (left >? 0).
    + destruct (send_nb_stop r).
      * destruct (r =? GNUTLS_E_AGAIN); injection Hrun as _ <-; reflexivity.
      * destruct (r >? 0) eqn:E.
        -- destruct (tls_send_nb_loop engine ds (left - r) (p + r)) as [o' cs] eqn:Hrec.
           injection Hrun as _ <-. apply IH in Hrec.
           cbn [length take calls_of]. rewrite E, <- Hrec. reflexivity.
        -- destruct (tls_send_nb_loop engine ds left p) as [o' cs] eqn:Hrec.
           injection Hrun as _ <-. apply IH in Hrec.
           cbn [length take calls_of]. rewrite E, <- Hrec. reflexivity.
    + injection Hrun as _ <-. reflexivity.
Qed.

(** X3: every call [tls_send] and [tls_send_nb] make of the engine passes
    the size of the whole payload, from the offset of the bytes accepted by
    the calls before it: after a partial acceptance the range handed to the
    engine ends as many bytes beyond the payload as have been accepted. *)
Theorem send_calls_pass_whole_size (engine : list Z) (data_size : Z)
    (o : outcome) (calls : list send_call) :
  tls_send engine data_size = (o, calls) \/ tls_send_nb engine data_size = (o, calls) ->
  forall (i : nat) c,
    calls !! i = Some c ->
    sc_size c = data_size
    /\ sc_offset c = accepted (take i engine)
    /\ sc_offset c + sc_size c = data_size + accepted (take i engine).
Proof.
  intros Hrun i c Hc.
  assert (Hcalls : calls = calls_of (take (length calls) engine) data_size 0).
  { destruct Hrun as [Hrun | Hrun];
      [eapply tls_send_loop_calls | eapply tls_send_nb_loop_calls]; exact Hrun. }
  assert (Hi : (i < length calls)%nat) by (eapply lookup_lt_Some; exact Hc).
  rewrite Hcalls in Hc. apply calls_of_lookup in Hc as [Hs Ho].
  rewrite take_take in Ho. replace (i `min` length calls)%nat with i in Ho by lia.
  repeat split; lia.
Qed.

(** A 100-byte payload of which the engine first accepts 60 bytes: the
    second call asks for 100 bytes from offset 60. *)
Lemma send_calls_pass_whole_size_witness :
  tls_send [60; 40] 100 = (Returned 100, [SendCall 0 100; SendCall 60 100])
  /\ 60 + 100 = 100 + accepted (take 1 [60; 40]).
Proof.
  assert (Hrun : tls_send [60; 40] 100
                 = (Returned 100, [SendCall 0 100; SendCall 60 100]))
    by reflexivity.
  split; [exact Hrun |].
  destruct (send_calls_pass_whole_size [60; 40] 100 _ _ (or_introl Hrun) 1%nat
              (SendCall 60 100) eq_refl) as (_ & _ & Hend).
  exact Hend.
Defined.

Lemma tls_send_at_once len rest :
  0 < len <= INT_MAX ->
  tls_send (len :: rest) len = (Returned len, [SendCall 0 len]).
Proof.
  intros Hlen. unfold tls_send. rewrite to_int_id by lia.
  rewrite tls_send_loop_last by lia.
  rewrite to_ssize_t_id by (unfold INT_MAX, SSIZE_MAX in *; lia). reflexivity.
Qed.

(** X4: when the expansion of the format has at most 1022 bytes,
    [tls_printf] hands [tls_send] the buffer with the length of the
    expansion as byte count; the buffer starts with the expansion, and a NUL
    follows it.  An empty expansion makes no call of the engine and returns
    0; when the engine accepts the whole count at the first call, that call,
    of the whole expansion from the start of the buffer, is the only one and
    the length of the expansion is returned. *)
Theorem tls_printf_sends_expansion (engine stack rendered : list Z) :
  length stack = 1024%nat -> (length rendered <= 1022)%nat ->
  let r := tls_printf engine stack rendered in
  ps_size r = Z.of_nat (length rendered)
  /\ take (Z.to_nat (ps_size r)) (ps_buf r) = rendered
  /\ ps_buf r !! length rendered = Some 0
  /\ length (ps_buf r) = 1024%nat
  /\ (ps_result r).2 = (tls_send engine (Z.of_nat (length rendered))).2
  /\ (rendered = [] -> ps_result r = (Returned 0, []))
  /\ (forall rest,
        rendered <> [] -> engine = Z.of_nat (length rendered) :: rest ->
        ps_result r
        = (Returned (Z.of_nat (length rendered)),
           [SendCall 0 (Z.of_nat (length rendered))])).
Proof.
  intros Hstack Hlen. unfold tls_printf, vsnprintf. cbv zeta.
  change (1023 - 1) with 1022. change (Z.to_nat 1022) with 1022%nat.
  change (1023 >? 0) with true. cbv iota.
  rewrite (take_ge rendered) by lia.
  assert (Hs : to_size_t (Z.of_nat (length rendered)) = Z.of_nat (length rendered)).
  { apply to_unsigned_id. change (2 ^ 64) with 18446744073709551616. lia. }
  rewrite Hs.
  destruct (tls_send engine (Z.of_nat (length rendered))) as [o calls] eqn:Hsend.
  cbn [ps_size ps_buf ps_result snd].
  rewrite Nat2Z.id.
  split; [reflexivity |]. split; [| split; [| split; [| split; [| split]]]].
  - rewrite <- app_assoc. rewrite take_app_length. reflexivity.
  - rewrite <- app_assoc. rewrite lookup_app_r by lia.
    rewrite Nat.sub_diag. reflexivity.
  - rewrite !length_app, length_drop, length_insert, ?length_app, Hstack.
    simpl. lia.
  - reflexivity.
  - intros ->. cbn [length] in Hsend. change (Z.of_nat 0) with 0 in Hsend.
    unfold tls_send in Hsend. rewrite to_int_id in Hsend by (unfold INT_MAX; lia).
    rewrite tls_send_loop_stop in Hsend by lia.
    rewrite to_ssize_t_id in Hsend by (unfold SSIZE_MAX; lia).
    injection Hsend as <- <-. rewrite to_int_id by (unfold INT_MAX; lia).
    reflexivity.
  - intros rest Hne ->.
    assert (Hpos : (0 < length rendered)%nat)
      by (destruct rendered; [congruence | simpl; lia]).
    rewrite tls_send_at_once in Hsend by (unfold INT_MAX; lia).
    injection Hsend as <- <-. rewrite to_int_id by (unfold INT_MAX; lia).
    reflexivity.
Qed.

(** The expansion "HTTP" (4 bytes) rendered into a buffer of 1024 bytes and
    accepted at once. *)
Lemma tls_printf_sends_expansion_witness :
  let r := tls_printf [4] (replicate 1024 7) [72; 84; 84; 80] in
  ps_size r = 4 /\ take 4 (ps_buf r) = [72; 84; 84; 80]
  /\ ps_result r = (Returned 4, [SendCall 0 4]).
Proof.
  intros r.
  assert (Hstack : length (replicate 1024 7) = 1024%nat) by reflexivity.
  assert (Hlen : (length [72; 84; 84; 80] <= 1022)%nat) by (simpl; lia).
  destruct (tls_printf_sends_expansion [4] (replicate 1024 7) [72; 84; 84; 80]
              Hstack Hlen) as (Hsize & Htake & _ & _ & _ & _ & Honce).
  split; [exact Hsize |].
  fold r in Hsize, Htake. rewrite Hsize in Htake. split; [exact Htake |].
  apply (Honce []); [discriminate | reflexivity].
Defined.

(** *** [tls_send_file] *)

Lemma chunk_sizes_bounds fuel n :
  Forall (fun s => 0 < s <= 512) (chunk_sizes fuel n).
Proof.
  revert n. induction fuel as [| fuel IH]; intros n; cbn [chunk_sizes].
  - constructor.
  - destruct (n =? 0)%nat eqn:E; [constructor |].
    apply Nat.eqb_neq in E. constructor; [lia | apply IH].
Qed.

Lemma tls_send_file_loop_whole (fatal_err : Z -> bool) fuel rest more total :
  (forall r, 0 <= r -> fatal_err r = false) ->
  (length rest < fuel)%nat ->
  tls_send_file_loop fuel fatal_err (chunk_sizes fuel (length rest) ++ more) rest total
  = (FileReturned (total + Z.of_nat (length rest)),
     map (SendCall 0) (chunk_sizes fuel (length rest))).
Proof.
  intros Hpass. revert rest total.
  induction fuel as [| fuel IH]; intros rest total Hfuel; [lia |].
  cbn [tls_send_file_loop chunk_sizes]. rewrite length_take.
  destruct (length rest =? 0)%nat eqn:E.
  - apply Nat.eqb_eq in E. rewrite E. simpl. f_equal. f_equal. lia.
  - apply Nat.eqb_neq in E.
    replace (Z.of_nat (512 `min` length rest) >? 0) with true
      by (symmetry; apply Z.gtb_lt; lia).
    cbn [app]. rewrite tls_send_at_once by (unfold INT_MAX; lia).
    rewrite to_int_id by (unfold INT_MAX; lia).
    rewrite Hpass by lia. cbn [length drop].
    replace (length rest - 512)%nat with (length (drop 512 rest))
      by apply length_drop.
    rewrite drop_0, IH by (rewrite length_drop; lia).
    rewrite length_drop. cbn [map app]. f_equal. f_equal. lia.
Qed.

(** X5: when the macro lets byte counts pass and the engine accepts every
    chunk at once, [tls_send_file] sends the file in reads of 512 bytes (the
    last one shorter), each from the start of the buffer, and returns the
    length of the file; an empty file makes no call and returns 0. *)
Theorem tls_send_file_whole (fatal_err : Z -> bool) (file more : list Z) :
  (forall r, 0 <= r -> fatal_err r = false) ->
  let sizes := chunk_sizes (S (length file)) (length file) in
  tls_send_file fatal_err (sizes ++ more) (Some file)
  = (FileReturned (Z.of_nat (length file)), map (SendCall 0) sizes)
  /\ Forall (fun s => 0 < s <= 512) sizes
  /\ (file = [] -> sizes = []).
Proof.
  intros Hpass sizes. split; [| split].
  - unfold tls_send_file. subst sizes.
    rewrite tls_send_file_loop_whole by (assumption || lia). reflexivity.
  - apply chunk_sizes_bounds.
  - intros ->. reflexivity.
Qed.

(** A file of 1100 bytes goes out as 512, 512 and 76 bytes. *)
Lemma tls_send_file_whole_witness :
  tls_send_file (fun r => r <? 0) [512; 512; 76] (Some (replicate 1100 1))
  = (FileReturned 1100, [SendCall 0 512; SendCall 0 512; SendCall 0 76]).
Proof.
  assert (Hpass : forall r, 0 <= r -> (fun r => r <? 0) r = false).
  { intros r Hr. apply Z.ltb_ge. exact Hr. }
  destruct (tls_send_file_whole (fun r => r <? 0) (replicate 1100 1) [] Hpass)
    as (Hrun & _).
  exact Hrun.
Defined.

(** X6: the errors of [tls_send_file].  When the file cannot be opened it
    returns the file error and the engine is not called.  When the engine
    ends the sending of the first chunk of a file with an error, the process
    ends there if the macro says so; if the macro lets the error pass, the
    loop goes on with the rest of the file, the error being the running
    total, and when the file has one chunk only the error is what
    [tls_send_file] returns. *)
Theorem tls_send_file_errors (fatal_err : Z -> bool) (engine : list Z) :
  tls_send_file fatal_err engine None = (FileReturned GNUTLS_E_FILE_ERROR, [])
  /\ forall file pre r post,
       (0 < length file)%nat ->
       Forall goes_on pre ->
       accepted pre < Z.of_nat (Nat.min 512 (length file)) ->
       fatal r -> - INT_MAX - 1 <= r ->
       let len := Z.of_nat (Nat.min 512 (length file)) in
       (fatal_err r = true ->
        tls_send_file fatal_err (pre ++ r :: post) (Some file)
        = (FileExited r, calls_of (pre ++ [r]) len 0))
       /\ (fatal_err r = false ->
           tls_send_file fatal_err (pre ++ r :: post) (Some file)
           = (let '(o, calls) :=
                tls_send_file_loop (length file) fatal_err post (drop 512 file) r in
              (o, calls_of (pre ++ [r]) len 0 ++ calls)))
       /\ (fatal_err r = false -> (length file <= 512)%nat ->
           tls_send_file fatal_err (pre ++ r :: post) (Some file)
           = (FileReturned r, calls_of (pre ++ [r]) len 0)).
Proof.
  split; [reflexivity |].
  intros file pre r post Hfile Hgo Hacc Hf Hr len.
  assert (Hsend : tls_send (pre ++ r :: post) len
                  = (Returned r, calls_of (pre ++ [r]) len 0)).
  { unfold tls_send. subst len. rewrite to_int_id by (unfold INT_MAX; lia).
    rewrite tls_send_loop_goes_on by assumption.
    rewrite tls_send_loop_fatal by (assumption || lia).
    rewrite calls_of_app. reflexivity. }
  assert (Hint : to_int r = r).
  { destruct Hf as [Hneg _]. apply to_signed_id; [lia |].
    unfold INT_MAX in Hr. change (2 ^ (32 - 1)) with 2147483648. lia. }
  assert (Hrest : drop (length (calls_of (pre ++ [r]) len 0)) (pre ++ r :: post) = post).
  { rewrite calls_of_length.
    replace (pre ++ r :: post) with ((pre ++ [r]) ++ post)
      by (rewrite <- app_assoc; reflexivity).
    apply drop_app_length. }
  assert (Hgoes : fatal_err r = false ->
                  tls_send_file fatal_err (pre ++ r :: post) (Some file)
                  = (let '(o, calls) :=
                       tls_send_file_loop (length file) fatal_err post
                         (drop 512 file) r in
                     (o, calls_of (pre ++ [r]) len 0 ++ calls))).
  { intros Herr. unfold tls_send_file. cbn [tls_send_file_loop].
    rewrite length_take. fold len.
    replace (len >? 0) with true by (symmetry; apply Z.gtb_lt; subst len; lia).
    rewrite Hsend, Hint, Herr, Hrest, Z.add_0_l. reflexivity. }
  split; [| split].
  - intros Herr. unfold tls_send_file. cbn [tls_send_file_loop].
    rewrite length_take. fold len.
    replace (len >? 0) with true by (symmetry; apply Z.gtb_lt; subst len; lia).
    rewrite Hsend, Hint, Herr. reflexivity.
  - exact Hgoes.
  - intros Herr Hone. rewrite (Hgoes Herr).
    rewrite (drop_ge file 512) by lia.
    destruct (length file) as [| n] eqn:En; [lia |].
    cbn [tls_send_file_loop take length]. change (Z.of_nat 0 >? 0) with false.
    cbv iota. rewrite app_nil_r. reflexivity.
Qed.

(** A file of 3 bytes, the engine answering a request for a new handshake
    (-37) that the macro lets pass: -37 is returned as if it were a count. *)
Lemma tls_send_file_errors_witness :
  tls_send_file (fun r => r <? -40) [-37] (Some [1; 2; 3])
  = (FileReturned (-37), [SendCall 0 3]).
Proof.
  destruct (tls_send_file_errors (fun r => r <? -40) [-37]) as [_ Herr].
  assert (Hfile : (0 < length [1; 2; 3])%nat) by (simpl; lia).
  assert (Hacc : accepted [] < Z.of_nat (Nat.min 512 (length [1; 2; 3])))
    by (simpl; lia).
  assert (Hf : fatal (-37)).
  { split; [lia |]. unfold retryable, GNUTLS_E_AGAIN, GNUTLS_E_INTERRUPTED. lia. }
  assert (Hr : - INT_MAX - 1 <= -37) by (unfold INT_MAX; lia).
  destruct (Herr [1; 2; 3] [] (-37) [] Hfile (Forall_nil_2 _) Hacc Hf Hr)
    as (_ & _ & Hpass).
  apply Hpass; [reflexivity | simpl; lia].
Defined.

End TransportMore.

(** ** More on the verification gate *)

Section GateMore.
Import Gnutls Worker.

(** Case analysis over the tests of [verify_certificate_cb]. *)
Ltac gate_cases :=
  unfold verify_certificate_cb, verify_fail, tls_has_session_cert;
  repeat match goal with
    | |- context [let '(_, _) := ?x in _] => destruct x eqn:?
    | |- context [if ?c then _ else _] => destruct c eqn:?
    end;
  cbn [vr_ret vr_ws vr_log vr_calls set_cert_auth_ok cert_auth_ok config session
       dtls_session fst snd negb] in *;
  repeat match goal with
    | H : (_ =? _) = true |- _ => apply Z.eqb_eq in H
    | H : (_ =? _) = false |- _ => apply Z.eqb_neq in H
    | H : (_ <? _) = true |- _ => apply Z.ltb_lt in H
    | H : (_ <? _) = false |- _ => apply Z.ltb_ge in H
    | H : negb _ = true |- _ => apply negb_true_iff in H
    | H : negb _ = false |- _ => apply negb_false_iff in H
    end.

(** The two states the gate can leave on the primary session. *)
Lemma verify_certificate_cb_flag_cases (eng : engine) (sess : Z) (ws : worker_st) :
  sess <> dtls_session ws ->
  (vr_ws (verify_certificate_cb eng sess (Some ws)) = Some (set_cert_auth_ok 1 ws)
   /\ (0 <= (gnutls_certificate_verify_peers2 eng sess).1
       /\ (gnutls_certificate_verify_peers2 eng sess).2 = 0))
  \/ (vr_ws (verify_certificate_cb eng sess (Some ws)) = Some (set_cert_auth_ok 0 ws)
      /\ ~ (0 <= (gnutls_certificate_verify_peers2 eng sess).1
            /\ (gnutls_certificate_verify_peers2 eng sess).2 = 0)).
Proof.
  intros Hprimary. gate_cases; try contradiction.
  all: first [ left; split; [reflexivity | split; [lia | assumption]]
             | right; split; [reflexivity | lia] ].
Qed.

(** X7: on the primary session the gate writes the authentication flag
    anew, whatever it was: afterwards the flag is 1 exactly when the engine's
    verification returned no error and the status 0, and 0 otherwise; the
    rest of the worker state is as before. *)
Theorem verify_certificate_cb_flag (eng : engine) (sess : Z) (ws : worker_st) :
  sess <> dtls_session ws ->
  exists ws',
    vr_ws (verify_certificate_cb eng sess (Some ws)) = Some ws'
    /\ session ws' = session ws /\ dtls_session ws' = dtls_session ws
    /\ config ws' = config ws
    /\ (cert_auth_ok ws' = 1 \/ cert_auth_ok ws' = 0)
    /\ (cert_auth_ok ws' = 1
        <-> 0 <= (gnutls_certificate_verify_peers2 eng sess).1
            /\ (gnutls_certificate_verify_peers2 eng sess).2 = 0).
Proof.
  intros Hprimary. gate_cases; try contradiction.
  all: eexists; (split; [reflexivity |]);
    cbn [session dtls_session config cert_auth_ok].
  all: repeat split; auto; try lia.
  all: try (intros; simpl in *; lia).
Qed.

(** A session that was authenticated, verified again with a status that is
    not 0: the flag is cleared. *)
Lemma verify_certificate_cb_flag_witness :
  let eng := Engine (fun _ => None) (fun _ => (0, 2)) (fun _ => 1)
               (fun _ _ => (0, "The certificate is NOT trusted. "%string))
               (fun _ => ""%string) in
  exists ws',
    vr_ws (verify_certificate_cb eng 1 (Some (WorkerSt 1 2 1 (Cfg 1)))) = Some ws'
    /\ cert_auth_ok ws' <> 1.
Proof.
  intros eng.
  assert (Hprimary : 1 <> dtls_session (WorkerSt 1 2 1 (Cfg 1))) by (simpl; lia).
  destruct (verify_certificate_cb_flag eng 1 _ Hprimary)
    as (ws' & Hws & _ & _ & _ & _ & Hflag).
  exists ws'. split; [exact Hws |].
  intros Hone. apply Hflag in Hone as [_ Hstatus]. simpl in Hstatus. lia.
Defined.

(** X8: what the gate returns.  With the compatibility flag on it returns 0
    in every case in which the worker state is there, engine errors
    included.  With the flag off, on the primary session, it returns 0
    exactly when the verification returned no error and the status 0, and
    the certificate error otherwise.  On the DTLS session it returns 0,
    asks the engine nothing and leaves the worker state as it is. *)
Theorem verify_certificate_cb_returns (eng : engine) (sess : Z) (ws : worker_st) :
  let r := verify_certificate_cb eng sess (Some ws) in
  (cisco_client_compat (config ws) <> 0 -> vr_ret r = 0)
  /\ (cisco_client_compat (config ws) = 0 -> sess <> dtls_session ws ->
      (vr_ret r = 0 \/ vr_ret r = GNUTLS_E_CERTIFICATE_ERROR)
      /\ (vr_ret r = 0
          <-> 0 <= (gnutls_certificate_verify_peers2 eng sess).1
              /\ (gnutls_certificate_verify_peers2 eng sess).2 = 0))
  /\ (sess = dtls_session ws -> r = VerifyResult 0 (Some ws) [] []).
Proof.
  cbv zeta. split; [| split].
  - intros Hc. gate_cases; try reflexivity; contradiction.
  - intros Hc Hprimary. gate_cases; try contradiction.
    all: unfold GNUTLS_E_CERTIFICATE_ERROR; repeat split; auto; try lia.
    all: try (intros; simpl in *; lia).
  - intros ->. unfold verify_certificate_cb. rewrite Z.eqb_refl. reflexivity.
Qed.

(** The engine fails to verify (-50) and compatibility is on: the handshake
    goes on. *)
Lemma verify_certificate_cb_returns_witness :
  let eng := Engine (fun _ => None) (fun _ => (-50, 0)) (fun _ => 1)
               (fun _ _ => (0, ""%string)) (fun _ => "Invalid request"%string) in
  vr_ret (verify_certificate_cb eng 1 (Some (WorkerSt 1 2 0 (Cfg 1)))) = 0.
Proof.
  intros eng.
  destruct (verify_certificate_cb_returns eng 1 (WorkerSt 1 2 0 (Cfg 1)))
    as (Hon & _ & _).
  apply Hon. simpl. lia.
Defined.

(** X9: the gate followed by [tls_has_session_cert].  After the gate has run
    on the primary session, [tls_has_session_cert] answers 1 exactly when
    the verification succeeded with status 0, or the compatibility flag is
    on and the peer presented a certificate: under compatibility a
    certificate that failed the verification counts as a session
    certificate. *)
Theorem tls_has_session_cert_after_gate (eng : engine) (sess : Z) (ws : worker_st) :
  sess <> dtls_session ws ->
  exists ws',
    vr_ws (verify_certificate_cb eng sess (Some ws)) = Some ws'
    /\ ((tls_has_session_cert eng ws').1 = 1
        <-> (0 <= (gnutls_certificate_verify_peers2 eng sess).1
             /\ (gnutls_certificate_verify_peers2 eng sess).2 = 0)
            \/ (cisco_client_compat (config ws) <> 0
                /\ is_Some (gnutls_certificate_get_peers eng (session ws)))).
Proof.
  intros Hprimary.
  destruct (verify_certificate_cb_flag_cases eng sess ws Hprimary)
    as [(Hws & Hok) | (Hws & Hbad)].
  - eexists. split; [exact Hws |]. unfold tls_has_session_cert. simpl.
    split; [intros _; left; exact Hok | reflexivity].
  - eexists. split; [exact Hws |]. unfold tls_has_session_cert. simpl.
    destruct (cisco_client_compat (config ws) =? 0) eqn:Hc.
    + apply Z.eqb_eq in Hc. simpl. split; [discriminate |].
      intros [Hok | [Hcompat _]]; [tauto | contradiction].
    + apply Z.eqb_neq in Hc.
      destruct (gnutls_certificate_get_peers eng (session ws)) as [certs |]; simpl.
      * split; [intros _; right; split; [exact Hc | eauto] | reflexivity].
      * split; [discriminate |].
        intros [Hok | [_ [certs Hsome]]]; [tauto | discriminate].
Qed.

(** A certificate that is not trusted, compatibility on: the session is
    reported as having a certificate. *)
Lemma tls_has_session_cert_after_gate_witness :
  let eng := Engine (fun _ => Some [[48; 130]]) (fun _ => (0, 2)) (fun _ => 1)
               (fun _ _ => (0, "The certificate is NOT trusted. "%string))
               (fun _ => ""%string) in
  exists ws',
    vr_ws (verify_certificate_cb eng 1 (Some (WorkerSt 1 2 0 (Cfg 1)))) = Some ws'
    /\ (tls_has_session_cert eng ws').1 = 1.
Proof.
  intros eng.
  assert (Hprimary : 1 <> dtls_session (WorkerSt 1 2 0 (Cfg 1))) by (simpl; lia).
  destruct (tls_has_session_cert_after_gate eng 1 _ Hprimary) as (ws' & Hws & Hone).
  exists ws'. split; [exact Hws |].
  apply Hone. right. split; [simpl; lia | simpl; eauto].
Defined.

End GateMore.

(** ** More on the teardown of the cache *)

Section CacheMore.
Import CInt Cache CacheTrace.

Lemma released_cons ev evs :
  released (ev :: evs)
  = match ev with EvFree p _ => p :: released evs | _ => released evs end.
Proof. destruct ev; reflexivity. Qed.

Lemma deinit_loop_run (iter : list nat) (heap heap' : gmap nat tls_cache_st) evs :
  deinit_loop iter heap = Some (heap', evs) ->
  released evs = iter
  /\ (forall q, heap' !! q = if decide (q ∈ iter) then None else heap !! q)
  /\ Forall (fun ev =>
               match ev with
               | EvMemset p n =>
                   exists e, heap !! p = Some e /\ n = session_data_size e /\ 0 < n
               | EvFree p e' => exists e, heap !! p = Some e /\ e' = at_release e
               | _ => False
               end) evs.
Proof.
  revert heap heap' evs. induction iter as [| c iter IH]; intros heap heap' evs Hrun.
  - injection Hrun as <- <-. split; [reflexivity | split; [| constructor]].
    intros q. destruct (decide (q ∈ [])) as [Hin | _]; [inversion Hin | reflexivity].
  - cbn [deinit_loop] in Hrun.
    destruct (heap !! c) as [e |] eqn:He; [| discriminate].
    destruct (if session_data_size e >? 0
              then (scrub e, [EvMemset c (session_data_size e)])
              else (e, [])) as [e' pre] eqn:Hstep.
    rewrite delete_insert_eq in Hrun.
    destruct (deinit_loop iter (delete c heap)) as [[heap1 rest] |] eqn:Hrec;
      [| discriminate].
    injection Hrun as <- <-.
    destruct (IH _ _ _ Hrec) as (Hrel & Hheap & Hev).
    assert (Hpre : (pre = [] \/ pre = [EvMemset c (session_data_size e)]
                                /\ 0 < session_data_size e)
                   /\ e' = at_release e).
    { unfold at_release. destruct (session_data_size e >? 0) eqn:Hsz;
        injection Hstep as <- <-; split; auto.
      right. split; [reflexivity |]. apply Z.gtb_lt in Hsz. lia. }
    destruct Hpre as [Hpre ->].
    split; [| split].
    + destruct Hpre as [-> | [-> _]]; cbn [app];
        rewrite !released_cons, Hrel; reflexivity.
    + intros q. rewrite Hheap.
      destruct (decide (q ∈ iter)) as [Hin | Hout];
        destruct (decide (q ∈ c :: iter)) as [Hin' | Hout']; try reflexivity.
      * exfalso. apply Hout'. right. exact Hin.
      * apply elem_of_cons in Hin' as [-> | Hin']; [| contradiction].
        apply lookup_delete_eq.
      * apply lookup_delete_ne. intros ->. apply Hout'. left.
    + assert (Hweak : forall ev,
                match ev with
                | EvMemset p n =>
                    exists e0, delete c heap !! p = Some e0
                               /\ n = session_data_size e0 /\ 0 < n
                | EvFree p e1 =>
                    exists e0, delete c heap !! p = Some e0 /\ e1 = at_release e0
                | _ => False
                end ->
                match ev with
                | EvMemset p n =>
                    exists e0, heap !! p = Some e0
                               /\ n = session_data_size e0 /\ 0 < n
                | EvFree p e1 => exists e0, heap !! p = Some e0 /\ e1 = at_release e0
                | _ => False
                end).
      { intros [p n | p e1 | | d]; auto.
        - intros (e0 & Hl & Hrest). apply lookup_delete_Some in Hl as [_ Hl]. eauto.
        - intros (e0 & Hl & Hrest). apply lookup_delete_Some in Hl as [_ Hl]. eauto. }
      apply Forall_app. split.
      * destruct Hpre as [-> | [-> Hpos]]; repeat constructor. eauto.
      * constructor; [eauto |].
        eapply Forall_impl; [exact Hev | exact Hweak].
Qed.

Lemma tls_cache_deinit_run heap db heap' evs :
  tls_cache_deinit heap db = Some (heap', evs) ->
  exists body,
    evs = body ++ [EvHtClear; EvFreeDb (HashDb [] 0)]
    /\ deinit_loop (ht db) heap = Some (heap', body).
Proof.
  unfold tls_cache_deinit.
  destruct (deinit_loop (ht db) heap) as [[h body] |]; [| discriminate].
  intros [= <- <-]. exists body. split; reflexivity.
Qed.

Lemma released_app evs1 evs2 : released (evs1 ++ evs2) = released evs1 ++ released evs2.
Proof. apply omap_app. Qed.

Lemma safe_memset_length s c n : length (safe_memset s c n) = length s.
Proof.
  unfold safe_memset. rewrite length_app, length_replicate, length_drop. lia.
Qed.

Lemma safe_memset_drop s c n :
  drop (Z.to_nat n) (safe_memset s c n) = drop (Z.to_nat n) s.
Proof.
  unfold safe_memset. destruct (Nat.le_gt_cases (Z.to_nat n) (length s)) as [Hle | Hgt].
  - replace (Z.to_nat n `min` length s)%nat with (Z.to_nat n) by lia.
    rewrite drop_app_length'; [reflexivity | symmetry; apply length_replicate].
  - rewrite (drop_ge s) by lia. rewrite app_nil_r.
    apply drop_ge. rewrite length_replicate. lia.
Qed.

(** X12: the entries are released in the order of the table, each once, and
    nothing else is released before the database; only entries with a
    positive data length are zeroed, over the length they record. *)
Theorem tls_cache_deinit_release_order (heap heap' : gmap nat tls_cache_st)
    (db : hash_db_st) (evs : list mem_event) :
  tls_cache_deinit heap db = Some (heap', evs) ->
  released evs = ht db
  /\ forall p n, EvMemset p n ∈ evs ->
       exists e, heap !! p = Some e /\ n = session_data_size e /\ 0 < n.
Proof.
  intros Hrun. apply tls_cache_deinit_run in Hrun as (body & -> & Hloop).
  destruct (deinit_loop_run _ _ _ _ Hloop) as (Hrel & _ & Hev).
  split.
  - rewrite released_app, Hrel. apply app_nil_r.
  - intros p n Hin. apply elem_of_app in Hin as [Hin | Hin].
    + rewrite Forall_forall in Hev. apply (Hev _ Hin).
    + apply elem_of_cons in Hin as [Heq | Hin]; [discriminate |].
      apply elem_of_cons in Hin as [Heq | Hin]; [discriminate | inversion Hin].
Qed.

(** Three entries, the second one without session data. *)
Lemma tls_cache_deinit_release_order_witness :
  let heap : gmap nat tls_cache_st :=
    <[4%nat := TlsCache [1] 1 [9; 9] 2]>
      (<[2%nat := TlsCache [2] 1 [0; 0] 0]>
         (<[9%nat := TlsCache [3] 1 [8; 0] 1]> ∅)) in
  exists heap' evs,
    tls_cache_deinit heap (HashDb [4%nat; 2%nat; 9%nat] 3) = Some (heap', evs)
    /\ released evs = [4%nat; 2%nat; 9%nat].
Proof.
  intros heap.
  destruct (tls_cache_deinit heap (HashDb [4%nat; 2%nat; 9%nat] 3))
    as [[heap' evs] |] eqn:Hrun; [| vm_compute in Hrun; discriminate Hrun].
  exists heap', evs. split; [reflexivity |].
  apply (tls_cache_deinit_release_order heap heap' _ evs Hrun).
Defined.

(** X13: what the teardown leaves in an entry it releases.  The bytes of
    the session id are never overwritten, the data buffer keeps its size and
    its bytes beyond the recorded length, and an entry whose recorded data
    length is 0 is released exactly as it was. *)
Theorem tls_cache_deinit_leaves (heap heap' : gmap nat tls_cache_st)
    (db : hash_db_st) (evs : list mem_event) :
  tls_cache_deinit heap db = Some (heap', evs) ->
  forall p e', EvFree p e' ∈ evs ->
    exists e,
      heap !! p = Some e
      /\ session_id e' = session_id e
      /\ length (session_data e') = length (session_data e)
      /\ drop (Z.to_nat (session_data_size e)) (session_data e')
         = drop (Z.to_nat (session_data_size e)) (session_data e)
      /\ (session_data_size e <= 0 -> e' = e).
Proof.
  intros Hrun p e' Hin. apply tls_cache_deinit_run in Hrun as (body & -> & Hloop).
  destruct (deinit_loop_run _ _ _ _ Hloop) as (_ & _ & Hev).
  apply elem_of_app in Hin as [Hin | Hin].
  - rewrite Forall_forall in Hev. destruct (Hev _ Hin) as (e & He & ->).
    exists e. split; [exact He |]. unfold at_release.
    destruct (session_data_size e >? 0) eqn:Hsz.
    + cbn [scrub session_id session_data]. apply Z.gtb_lt in Hsz.
      repeat split; [apply safe_memset_length | apply safe_memset_drop | lia].
    + repeat split; reflexivity.
  - apply elem_of_cons in Hin as [Heq | Hin]; [discriminate |].
    apply elem_of_cons in Hin as [Heq | Hin]; [discriminate | inversion Hin].
Qed.

(** An entry with 2 bytes of data recorded in a buffer of 4. *)
Lemma tls_cache_deinit_leaves_witness :
  let heap : gmap nat tls_cache_st := <[1%nat := TlsCache [7; 8] 2 [9; 9; 5; 6] 2]> ∅ in
  let e' := TlsCache [7; 8] 0 [0; 0; 5; 6] 0 in
  tls_cache_deinit heap (HashDb [1%nat] 1)
  = Some (∅, [EvMemset 1%nat 2; EvFree 1%nat e'; EvHtClear; EvFreeDb (HashDb [] 0)])
  /\ session_id e' = [7; 8] /\ drop 2 (session_data e') = [5; 6].
Proof.
  intros heap e'.
  assert (Hrun : tls_cache_deinit heap (HashDb [1%nat] 1)
                 = Some (∅, [EvMemset 1%nat 2; EvFree 1%nat e'; EvHtClear;
                             EvFreeDb (HashDb [] 0)]))
    by (vm_compute; reflexivity).
  split; [exact Hrun |].
  assert (Hin : EvFree 1%nat e'
                ∈ [EvMemset 1%nat 2; EvFree 1%nat e'; EvHtClear; EvFreeDb (HashDb [] 0)])
    by (right; left).
  destruct (tls_cache_deinit_leaves heap ∅ _ _ Hrun _ _ Hin)
    as (e & He & Hid & _ & Hdrop & _).
  vm_compute in He. injection He as <-. split; [exact Hid | exact Hdrop].
Defined.

End CacheMore.

(** ** More on the delegation round trip *)

Section KeyDelegationMore.
Import CInt Gnutls KeyDelegation KeyTrace.

(** Case analysis over the tests of the round trip, in the order of the
    code. *)
Ltac round_trip_cases :=
  unfold key_cb_common_func, key_cb_error;
  repeat match goal with
    | |- context [if ?c then _ else _] => destruct c eqn:?
    | |- context [let '(_, _) := ?x in _] => destruct x eqn:?
    end;
  cbn [rt_ret rt_heap rt_output rt_trace data size gnutls_free fst snd] in *;
  repeat match goal with
    | H : (_ =? _) = true |- _ => apply Z.eqb_eq in H
    | H : (_ =? _) = false |- _ => apply Z.eqb_neq in H
    | H : (_ <? _) = true |- _ => apply Z.ltb_lt in H
    | H : (_ <? _) = false |- _ => apply Z.ltb_ge in H
    | H : (_ <=? _) = true |- _ => apply Z.leb_le in H
    | H : (_ <=? _) = false |- _ => apply Z.leb_gt in H
    end.

Lemma load_uint16_range big bytes : 0 <= load_uint16 big bytes <= 65535.
Proof.
  unfold load_uint16. destruct bytes as [| b0 [| b1 bytes]]; try lia.
  assert (H0 : 0 <= to_uint8 b0 < 256) by (apply Z.mod_pos_bound; lia).
  assert (H1 : 0 <= to_uint8 b1 < 256) by (apply Z.mod_pos_bound; lia).
  destruct big; lia.
Qed.

(** X14: the socket of a round trip.  When [socket] fails nothing is
    connected, written, read or closed.  When it succeeds, every operation
    of the round trip is on the descriptor it returned, that descriptor is
    closed once, on the failure paths as on success, and nothing uses it
    after the [close]. *)
Theorem key_cb_common_func_socket (k : kernel) (heap : gmap nat block)
    (cdata : key_cb_data) (raw_data : list Z) (output : gnutls_datum_t) (type : Z) :
  let trace := rt_trace (key_cb_common_func k heap cdata raw_data output type) in
  (k_socket k = -1 -> closes trace = [] /\ uses trace = [])
  /\ (k_socket k <> -1 ->
      closes trace = [k_socket k]
      /\ Forall (fun sd => sd = k_socket k) (uses trace)
      /\ uses (after_close trace) = []).
Proof.
  cbv zeta. split; intros Hs; round_trip_cases; try contradiction;
    cbn [app]; repeat split; repeat constructor.
Qed.

(** The connection is refused: the descriptor 3 is closed all the same. *)
Lemma key_cb_common_func_socket_witness :
  let k := Kernel 3 (-1) 0 None false None false in
  closes (rt_trace (key_cb_common_func k ∅ (KeyCbData 0 "/var/run/ocserv-socket" 24)
                      [1; 2] (Datum None 0) 83)) = [3].
Proof.
  intros k.
  destruct (key_cb_common_func_socket k ∅ (KeyCbData 0 "/var/run/ocserv-socket" 24)
              [1; 2] (Datum None 0) 83) as [_ Hopen].
  apply Hopen. simpl. lia.
Defined.

(** X15: the heap of a round trip.  Whatever happens, the blocks that are
    live on entry stay as they are.  On success the result is in one new
    block, of the advertised size, at an address that was not live, and
    that block is the only change. *)
Theorem key_cb_common_func_heap (k : kernel) (heap : gmap nat block)
    (cdata : key_cb_data) (raw_data : list Z) (output : gnutls_datum_t) (type : Z) :
  let r := key_cb_common_func k heap cdata raw_data output type in
  (forall a b, heap !! a = Some b -> rt_heap r !! a = Some b)
  /\ (rt_ret r = 0 ->
      exists a got,
        data (rt_output r) = Some a
        /\ heap !! a = None
        /\ rt_heap r = <[a := Block (advertised_length k) got]> heap
        /\ got = (recv (k_recv_body k) (advertised_length k)).2).
Proof.
  cbv zeta. unfold advertised_length. split.
  - intros a b Hab.
    assert (Hne : a <> fresh (dom heap)).
    { intros ->. rewrite fresh_not_live in Hab. discriminate. }
    round_trip_cases; try exact Hab.
    + rewrite free_fresh. exact Hab.
    + rewrite !lookup_insert_ne by congruence. exact Hab.
  - round_trip_cases; unfold GNUTLS_E_INTERNAL_ERROR; try discriminate.
    intros _. eexists _, _. split; [reflexivity |].
    split; [apply fresh_not_live |]. split; [| reflexivity].
    match goal with H : recv (k_recv_body k) _ = _ |- _ => rewrite H end.
    cbn [snd]. apply insert_insert_eq.
Qed.

(** A round trip that succeeds, on a heap that holds one block. *)
Lemma key_cb_common_func_heap_witness :
  let k := Kernel 3 0 7 (Some [2; 0]) true (Some [10; 20]) false in
  let heap : gmap nat block := <[0%nat := Block 4 [1; 1; 1; 1]]> ∅ in
  rt_heap (key_cb_common_func k heap (KeyCbData 0 "/var/run/ocserv-socket" 24)
             [1; 2] (Datum None 0) 83) !! 0%nat
  = Some (Block 4 [1; 1; 1; 1]).
Proof.
  intros k heap.
  destruct (key_cb_common_func_heap k heap (KeyCbData 0 "/var/run/ocserv-socket" 24)
              [1; 2] (Datum None 0) 83) as [Hframe _].
  apply Hframe. reflexivity.
Defined.

(** X16: the size of a result.  A result has at least 1 and at most 65535
    bytes; a response that advertises the length 0 is an internal error,
    whatever follows it. *)
Theorem key_cb_common_func_result_size (k : kernel) (heap : gmap nat block)
    (cdata : key_cb_data) (raw_data : list Z) (output : gnutls_datum_t) (type : Z) :
  let r := key_cb_common_func k heap cdata raw_data output type in
  (rt_ret r = 0 -> 1 <= size (rt_output r) <= 65535)
  /\ (advertised_length k = 0 ->
      rt_ret r = GNUTLS_E_INTERNAL_ERROR /\ rt_heap r = heap).
Proof.
  cbv zeta. unfold advertised_length. split.
  - round_trip_cases; unfold GNUTLS_E_INTERNAL_ERROR; try discriminate.
    intros _.
    match goal with
    | H : recv (k_recv_body k) _ = _ |- _ =>
        destruct (recv_positive _ _ _ _ H) as [_ Hle]; [lia |]
    end.
    match goal with
    | H : recv (k_recv_length k) 2 = (_, ?l) |- _ =>
        pose proof (load_uint16_range (big_endian k) l)
    end.
    lia.
  - intros Hzero. round_trip_cases; try (split; reflexivity).
    + rewrite free_fresh. split; reflexivity.
    + exfalso. cbn [snd] in Hzero.
      match goal with
      | H : recv (k_recv_body k) _ = _ |- _ =>
          destruct (recv_positive _ _ _ _ H) as [_ Hle]; [lia |]
      end.
      lia.
Qed.

(** The custodian answers with the length 0 and then sends bytes. *)
Lemma key_cb_common_func_result_size_witness :
  let k := Kernel 3 0 7 (Some [0; 0]) true (Some [10; 20]) false in
  rt_ret (key_cb_common_func k ∅ (KeyCbData 0 "/var/run/ocserv-socket" 24)
            [1; 2] (Datum None 0) 83) = GNUTLS_E_INTERNAL_ERROR.
Proof.
  intros k.
  destruct (key_cb_common_func_result_size k ∅
              (KeyCbData 0 "/var/run/ocserv-socket" 24) [1; 2] (Datum None 0) 83)
    as [_ Hzero].
  apply Hzero. reflexivity.
Defined.

End KeyDelegationMore.

(** ** Loading of the credentials *)

Section StartupFacts.
Import CInt KeyDelegation Startup.

(** Evaluation of a computation whose tests are open: the tests are
    decided one after the other. *)
Ltac run_proc :=
  unfold ret, exit, call, emit, mslog, GNUTLS_FATAL_ERR, certificate_check_cleanup;
  repeat first
    [ progress cbn [bind fst snd app]
    | match goal with
      | |- context [if ?c then _ else _] => destruct c eqn:?
      | |- context [match ?x with Some _ => _ | None => _ end] => destruct x eqn:?
      end ].

(** X17: [tls_reload_crl] does nothing when no CRL is configured or
    certificates are not requested.  Otherwise it loads the CRL, and every
    error of the engine, the base64 error of an empty file like any other,
    ends the process with status 1 after one line of log. *)
Theorem tls_reload_crl_errors (eng : engine) (s : main_server_st) :
  (crl (config s) = None \/ cert_req (config s) = GNUTLS_CERT_IGNORE ->
   tls_reload_crl eng s = (Done tt, []))
  /\ forall file,
       crl (config s) = Some file -> cert_req (config s) <> GNUTLS_CERT_IGNORE ->
       (0 <= gnutls_certificate_set_x509_crl_file eng file ->
        tls_reload_crl eng s
        = (Done tt, [EvCall "gnutls_certificate_set_x509_crl_file" file]))
       /\ (gnutls_certificate_set_x509_crl_file eng file < 0 ->
           exists msg,
             tls_reload_crl eng s
             = (Exit 1, [EvCall "gnutls_certificate_set_x509_crl_file" file;
                         EvLog LOG_ERR msg])).
Proof.
  unfold tls_reload_crl. split.
  - intros [Hcrl | Hreq].
    + rewrite Hcrl. reflexivity.
    + apply Z.eqb_eq in Hreq. rewrite Hreq. destruct (crl (config s)); reflexivity.
  - intros file Hcrl Hreq. rewrite Hcrl. apply Z.eqb_neq in Hreq. rewrite Hreq.
    cbn [negb]. split; intros Hr.
    + replace (gnutls_certificate_set_x509_crl_file eng file <? 0) with false
        by (symmetry; apply Z.ltb_ge; exact Hr).
      reflexivity.
    + replace (gnutls_certificate_set_x509_crl_file eng file <? 0) with true
        by (symmetry; apply Z.ltb_lt; exact Hr).
      destruct (gnutls_certificate_set_x509_crl_file eng file
                =? GNUTLS_E_BASE64_DECODING_ERROR); eexists; reflexivity.
Qed.

(** An empty CRL file, which the engine cannot decode. *)
Lemma tls_reload_crl_errors_witness :
  exists msg,
    tls_reload_crl (example_engine GNUTLS_E_BASE64_DECODING_ERROR)
      (example_server 1 2 None)
    = (Exit 1, [EvCall "gnutls_certificate_set_x509_crl_file" "crl.pem";
                EvLog LOG_ERR msg]).
Proof.
  destruct (tls_reload_crl_errors (example_engine GNUTLS_E_BASE64_DECODING_ERROR)
              (example_server 1 2 None)) as [_ Hload].
  destruct (Hload "crl.pem"%string eq_refl) as [_ Herr].
  - simpl. unfold GNUTLS_CERT_IGNORE. lia.
  - apply Herr. simpl. unfold GNUTLS_E_BASE64_DECODING_ERROR. lia.
Defined.

(** X18: the warnings of [certificate_check].  The warning that no DH
    parameters file is specified is logged exactly when the warning about
    the key usage is logged and a DH parameters file is configured: with no
    such file it is never logged.  With more than one certificate nothing
    is checked and the engine is not called. *)
Theorem certificate_check_warnings (eng : engine) (s : main_server_st)
    (r : step unit) (t : list startup_event) :
  certificate_check eng s = (r, t) ->
  (msg_no_dh_params ∈ logged t
   <-> msg_key_usage ∈ logged t /\ is_Some (dh_params_file (config s)))
  /\ (1 < cert_size (config s) -> r = Done tt /\ t = []).
Proof.
  unfold certificate_check. intros Hrun. split.
  - revert Hrun. destruct (gnutls_x509_crt_get_key_usage eng) as [ur usage].
    run_proc; intros [= <- <-]; cbn [logged omap];
      apply (bool_decide_unpack _); vm_compute; reflexivity.
  - intros Hmany.
    replace (cert_size (config s) >? 1) with true in Hrun
      by (symmetry; apply Z.gtb_lt; exact Hmany).
    injection Hrun as <- <-. split; reflexivity.
Qed.

(** One RSA certificate without key encipherment, a DH parameters file
    configured: the warning is logged. *)
Lemma certificate_check_warnings_witness :
  msg_no_dh_params
  ∈ logged (certificate_check (example_engine 0)
              (example_server 1 2 (Some "dh.pem"%string))).2.
Proof.
  destruct (certificate_check (example_engine 0)
              (example_server 1 2 (Some "dh.pem"%string))) as [r t] eqn:Hrun.
  destruct (certificate_check_warnings _ _ r t Hrun) as [Hdh _].
  apply Hdh. vm_compute in Hrun. injection Hrun as <- <-.
  split; [| eauto]. apply (bool_decide_unpack _). vm_compute. reflexivity.
Defined.

Lemma imported_keys_cons ev t :
  imported_keys (ev :: t)
  = match ev with EvImportKey c => c :: imported_keys t | _ => imported_keys t end.
Proof. destruct ev; reflexivity. Qed.

Lemma load_cert_files_loop_keys (eng : engine) (s : main_server_st) (n i : nat)
    (r : step Z) (t : list startup_event) :
  load_cert_files_loop eng s n i = (r, t) ->
  exists m : nat,
    (m <= n)%nat
    /\ imported_keys t = map (key_cb_data_of s) (seq i m)
    /\ (r = Done 0 -> m = n)
    /\ (forall v, r = Done v -> v = 0 \/ v = -1).
Proof.
  revert i r t. induction n as [| n IH]; intros i r t Hrun.
  - injection Hrun as <- <-. exists 0%nat.
    split; [lia |]. split; [reflexivity |]. split; [reflexivity |].
    intros v [= <-]. left. reflexivity.
  - cbn [load_cert_files_loop] in Hrun.
    destruct (load_cert_files_loop eng s n (S i)) as [r' t'] eqn:Hrec.
    destruct (IH _ _ _ Hrec) as (m & Hm & Hkeys & Hall & Hval).
    revert Hrun. run_proc; intros [= <- <-];
      rewrite ?imported_keys_cons;
      first
        [ exists 0%nat; split; [lia |]; split; [reflexivity |];
          split; [discriminate |]; intros v [= <-]; auto; fail
        | exists 0%nat; split; [lia |]; split; [reflexivity |];
          split; discriminate
        | exists 1%nat; split; [lia |]; split; [reflexivity |];
          split; discriminate
        | exists (S m); split; [lia |]; split; [cbn [seq map]; rewrite Hkeys; reflexivity |];
          split; [intros Hd; rewrite (Hall Hd); reflexivity | exact Hval] ].
Qed.

(** X19: the keys [load_cert_files] hands to the engine carry the indices
    0, 1, 2, ... in this order and all the same socket address; it returns
    0 only when it has handed over a key for each of the [key_size] keys,
    and it returns nothing but 0 and -1. *)
Theorem load_cert_files_keys (eng : engine) (s : main_server_st)
    (r : step Z) (t : list startup_event) :
  load_cert_files eng s = (r, t) ->
  exists m : nat,
    (m <= Z.to_nat (key_size (config s)))%nat
    /\ imported_keys t = map (key_cb_data_of s) (seq 0 m)
    /\ (r = Done 0 -> m = Z.to_nat (key_size (config s)))
    /\ (forall v, r = Done v -> v = 0 \/ v = -1).
Proof. apply load_cert_files_loop_keys. Qed.

(** Three keys, every call of the engine succeeding. *)
Lemma load_cert_files_keys_witness :
  exists t,
    load_cert_files (example_engine 0) (example_server 3 2 None) = (Done 0, t)
    /\ map idx (imported_keys t) = [0; 1; 2].
Proof.
  destruct (load_cert_files (example_engine 0) (example_server 3 2 None))
    as [r t] eqn:Hrun.
  destruct (load_cert_files_keys _ _ r t Hrun) as (m & _ & Hkeys & Hall & _).
  assert (Hr : r = Done 0) by (vm_compute in Hrun; congruence).
  exists t. split; [rewrite Hr; reflexivity |].
  rewrite Hkeys, (Hall Hr). reflexivity.
Defined.

Lemma key_cb_common_func_cdata (k : kernel) (heap : gmap nat block)
    (c1 c2 : key_cb_data) (raw_data : list Z) (output : gnutls_datum_t) (type : Z) :
  sa c1 = sa c2 -> to_uint8 (idx c1) = to_uint8 (idx c2) ->
  key_cb_common_func k heap c1 raw_data output type
  = key_cb_common_func k heap c2 raw_data output type.
Proof. intros Hsa Hidx. unfold key_cb_common_func. rewrite Hsa, Hidx. reflexivity. Qed.

Lemma index_byte_wraps (i : nat) :
  to_uint8 (to_unsigned 32 (Z.of_nat (i + 256)))
  = to_uint8 (to_unsigned 32 (Z.of_nat i)).
Proof.
  unfold to_uint8, to_unsigned.
  assert (Hdiv : (2 ^ 8 | 2 ^ 32)) by (exists (2 ^ 24); reflexivity).
  rewrite !(Z.mod_mod_divide _ _ _ Hdiv).
  rewrite Nat2Z.inj_add. change (Z.of_nat 256) with (1 * 2 ^ 8).
  apply Z_mod_plus_full.
Qed.

(** X20: the index of a key reaches the custodian reduced to one byte.  The
    round trips made for the key of index [i + 256] are, event for event
    and result for result, those made for the key of index [i], for signing
    and for decrypting, although the two keys carry different indices. *)
Theorem key_index_one_byte (k : kernel) (heap : gmap nat block) (s : main_server_st)
    (i : nat) (raw_data : list Z) (output : gnutls_datum_t) :
  key_cb_sign_func k heap (key_cb_data_of s (i + 256)) raw_data output
  = key_cb_sign_func k heap (key_cb_data_of s i) raw_data output
  /\ key_cb_decrypt_func k heap (key_cb_data_of s (i + 256)) raw_data output
     = key_cb_decrypt_func k heap (key_cb_data_of s i) raw_data output
  /\ (Z.of_nat i + 256 < 2 ^ 32 ->
      idx (key_cb_data_of s (i + 256)) <> idx (key_cb_data_of s i)).
Proof.
  split; [| split].
  - apply key_cb_common_func_cdata; [reflexivity | apply index_byte_wraps].
  - apply key_cb_common_func_cdata; [reflexivity | apply index_byte_wraps].
  - intros Hi. cbn [key_cb_data_of idx]. unfold to_unsigned.
    change (2 ^ 32) with 4294967296 in *.
    rewrite !Z.mod_small by lia. lia.
Qed.

(** The keys of index 0 and 256. *)
Lemma key_index_one_byte_witness :
  idx (key_cb_data_of (example_server 300 2 None) 256)
  <> idx (key_cb_data_of (example_server 300 2 None) 0).
Proof.
  destruct (key_index_one_byte (Kernel 3 0 0 None false None false) ∅
              (example_server 300 2 None) 0 [] (Datum None 0)) as (_ & _ & Hidx).
  apply Hidx. vm_compute. reflexivity.
Defined.

Lemma called_cons_call fn arg t : called (EvCall fn arg :: t) = fn :: called t.
Proof. reflexivity. Qed.

Lemma called_cons_log prio msg t : called (EvLog prio msg :: t) = called t.
Proof. reflexivity. Qed.

Lemma called_cons_key c t : called (EvImportKey c :: t) = called t.
Proof. reflexivity. Qed.

(** Membership in a footprint: every name met is one of the list. *)
Ltac footprint :=
  repeat first [ rewrite called_cons_call | rewrite called_cons_log
               | rewrite called_cons_key ];
  change (called []) with (@nil string);
  intros fn Hfn;
  repeat match goal with
    | H : _ ∈ _ :: _ |- _ => apply elem_of_cons in H as [-> | H]
    | H : _ ∈ [] |- _ => inversion H
    end;
  first [ apply (bool_decide_unpack _); vm_compute; reflexivity | auto ].

Lemma called_cons ev t :
  called (ev :: t)
  = match ev with EvCall fn _ => fn :: called t | _ => called t end.
Proof. destruct ev; reflexivity. Qed.

Lemma called_app t1 t2 : called (t1 ++ t2) = called t1 ++ called t2.
Proof. apply omap_app. Qed.

Lemma imported_keys_app t1 t2 :
  imported_keys (t1 ++ t2) = imported_keys t1 ++ imported_keys t2.
Proof. apply omap_app. Qed.

(** The engine functions [set_dh_params] calls, and that it imports no
    key. *)
Lemma set_dh_params_calls (eng : engine) (s : main_server_st) r t :
  set_dh_params eng s = (r, t) ->
  called t ⊆ ["gnutls_dh_params_init"; "gnutls_load_file";
              "gnutls_dh_params_import_pkcs3"; "gnutls_free";
              "gnutls_certificate_set_dh_params"]%string
  /\ imported_keys t = [].
Proof.
  unfold set_dh_params. run_proc; intros [= <- <-];
    (split; [footprint | reflexivity]).
Qed.

Lemma certificate_check_calls (eng : engine) (s : main_server_st) r t :
  certificate_check eng s = (r, t) ->
  called t ⊆ ["gnutls_url_is_supported"; "gnutls_load_file"; "gnutls_x509_crt_init";
              "gnutls_x509_crt_import"; "gnutls_x509_crt_get_pk_algorithm";
              "gnutls_x509_crt_get_key_usage"; "gnutls_x509_crt_deinit";
              "gnutls_free"]%string
  /\ imported_keys t = [].
Proof.
  unfold certificate_check. destruct (gnutls_x509_crt_get_key_usage eng) as [ur usage].
  run_proc; intros [= <- <-];
    (split; [footprint | reflexivity]).
Qed.

Lemma load_cert_files_loop_calls (eng : engine) (s : main_server_st) n i r t :
  load_cert_files_loop eng s n i = (r, t) ->
  called t ⊆ ["gnutls_url_is_supported"; "gnutls_load_file"; "gnutls_malloc";
              "gnutls_pcert_list_import_x509_raw"; "gnutls_free";
              "gnutls_privkey_init"; "talloc"; "gnutls_pubkey_get_pk_algorithm";
              "gnutls_certificate_set_key"]%string.
Proof.
  revert i r t. induction n as [| n IH]; intros i r t Hrun.
  - injection Hrun as <- <-. intros fn Hfn. inversion Hfn.
  - cbn [load_cert_files_loop] in Hrun.
    destruct (load_cert_files_loop eng s n (S i)) as [r' t'] eqn:Hrec.
    apply IH in Hrec.
    revert Hrun. run_proc; intros [= <- <-]; footprint.
Qed.

(** *** How the properties of the parts pass to a sequence *)

Lemma bind_not_called {A B : Type} (c : proc A) (k : A -> proc B) (x : string) :
  x ∉ called c.2 -> (forall a, x ∉ called (k a).2) -> x ∉ called (bind c k).2.
Proof.
  destruct c as [[a | code |] t]; simpl; intros Hc Hk; try exact Hc.
  specialize (Hk a). destruct (k a) as [r t']. simpl in *.
  rewrite called_app. intros Hin. apply elem_of_app in Hin as [Hin | Hin]; tauto.
Qed.

Lemma bind_no_keys {A B : Type} (c : proc A) (k : A -> proc B) :
  imported_keys c.2 = [] -> (forall a, imported_keys (k a).2 = []) ->
  imported_keys (bind c k).2 = [].
Proof.
  destruct c as [[a | code |] t]; simpl; intros Hc Hk; try exact Hc.
  specialize (Hk a). destruct (k a) as [r t']. simpl in *.
  rewrite imported_keys_app, Hc, Hk. reflexivity.
Qed.

Lemma bind_never_l {A B : Type} (c : proc A) (k : A -> proc B) :
  (forall a, c.1 <> Done a) -> forall b, (bind c k).1 <> Done b.
Proof.
  destruct c as [[a | code |] t]; simpl; intros Hc b; try discriminate.
  exfalso. apply (Hc a). reflexivity.
Qed.

Lemma bind_never_r {A B : Type} (c : proc A) (k : A -> proc B) :
  (forall a b, (k a).1 <> Done b) -> forall b, (bind c k).1 <> Done b.
Proof.
  destruct c as [[a | code |] t]; simpl; intros Hk b; try discriminate.
  specialize (Hk a b). destruct (k a) as [r t']. exact Hk.
Qed.



Lemma tls_reload_crl_calls (eng : engine) (s : main_server_st) :
  called (tls_reload_crl eng s).2 ⊆ ["gnutls_certificate_set_x509_crl_file"]%string.
Proof. unfold tls_reload_crl. run_proc; footprint. Qed.

(** A literal name is not in a footprint that does not list it. *)
Ltac not_in_footprint H :=
  exfalso; revert H; apply (bool_decide_unpack _); vm_compute; reflexivity.

(** The leaves of a sequence, for a name that is not called. *)
Ltac not_called_leaf :=
  lazymatch goal with
  | |- _ ∉ called (set_dh_params ?e ?s).2 =>
      let H := fresh in
      intros H; destruct (set_dh_params e s) as [? ?] eqn:E;
      apply set_dh_params_calls in E as [E _]; apply E in H; not_in_footprint H
  | |- _ ∉ called (certificate_check ?e ?s).2 =>
      let H := fresh in
      intros H; destruct (certificate_check e s) as [? ?] eqn:E;
      apply certificate_check_calls in E as [E _]; apply E in H; not_in_footprint H
  | |- _ ∉ called (load_cert_files ?e ?s).2 =>
      let H := fresh in
      intros H; destruct (load_cert_files e s) as [? ?] eqn:E;
      apply load_cert_files_loop_calls in E; apply E in H; not_in_footprint H
  | |- _ ∉ called (GNUTLS_FATAL_ERR ?e ?r).2 =>
      unfold GNUTLS_FATAL_ERR; destruct (fatal_err e r); apply not_elem_of_nil
  | |- _ =>
      unfold call, emit, mslog, ret, exit; cbn [snd];
      apply (bool_decide_unpack _); vm_compute; reflexivity
  end.

Ltac not_called_walk :=
  repeat lazymatch goal with
    | |- _ ∉ called (bind _ _).2 => apply bind_not_called; [| intros ?]
    | |- _ ∉ called (if ?c then _ else _).2 => destruct c
    | |- _ ∉ called (match ?x with Some _ => _ | None => _ end).2 => destruct x
    | |- _ => not_called_leaf
    end.



(** X22: when no key or no certificate is configured, [tls_load_certs]
    does not return: the process ends; no key has been handed to the engine
    and no certificate file has been looked at by then. *)
Theorem tls_load_certs_nothing (eng : engine) (s : main_server_st) (creds : tls_st) :
  key_size (config s) = 0 \/ cert_size (config s) = 0 ->
  (forall b, (tls_load_certs eng s creds).1 <> Done b)
  /\ imported_keys (tls_load_certs eng s creds).2 = []
  /\ "gnutls_url_is_supported"%string ∉ called (tls_load_certs eng s creds).2.
Proof.
  intros Hnone. unfold tls_load_certs.
  assert (Htest : (key_size (config s) =? 0) || (cert_size (config s) =? 0) = true).
  { apply orb_true_iff. rewrite !Z.eqb_eq. exact Hnone. }
  rewrite Htest. split; [| split].
  - do 5 (apply bind_never_r; intros ?). intros b Hb. discriminate Hb.
  - repeat lazymatch goal with
      | |- imported_keys (bind _ _).2 = [] => apply bind_no_keys; [| intros ?]
      | |- imported_keys (if ?c then _ else _).2 = [] => destruct c
      | |- imported_keys (set_dh_params ?e ?s).2 = [] =>
          destruct (set_dh_params e s) as [? ?] eqn:E;
          apply set_dh_params_calls in E as [_ E]; exact E
      | |- imported_keys (GNUTLS_FATAL_ERR ?e ?r).2 = [] =>
          unfold GNUTLS_FATAL_ERR; destruct (fatal_err e r); reflexivity
      | |- _ => reflexivity
      end.
  - not_called_walk.
Qed.

(** No key is configured. *)
Lemma tls_load_certs_nothing_witness :
  (tls_load_certs (example_engine 0) (example_server 0 2 None) (Tls false)).1 = Exit 1
  /\ imported_keys
       (tls_load_certs (example_engine 0) (example_server 0 2 None) (Tls false)).2
     = [].
Proof.
  split; [reflexivity |].
  assert (Hnone : key_size (config (example_server 0 2 None)) = 0
                  \/ cert_size (config (example_server 0 2 None)) = 0)
    by (left; reflexivity).
  destruct (tls_load_certs_nothing (example_engine 0) (example_server 0 2 None)
              (Tls false) Hnone) as (_ & Hkeys & _).
  exact Hkeys.
Defined.



End StartupFacts.
